(** * Vaceline front end: parser fragments, node model and printer

    A shallow embedding of
      - [src/parser/literal.ts]            ([parseLiteral]),
      - [src/parser/expression/index.ts]   ([parseExpr]),
      - [src/nodes/index.ts]               (node classes, [next], [print]),
      - [src/generator/printAST.ts]        ([printNode], [printStatements]),
    together with the properties the specification states about them. *)

From Stdlib Require Import String Ascii List ZArith Lia Bool DecimalString.
Import ListNotations.

Open Scope string_scope.
Open Scope list_scope.

#[local] Set Warnings "-register-all".

(* ================================================================== *)
(** * Source positions, tokens, errors *)
(* ================================================================== *)

Record Position := mkPosition { offset : Z; line : Z; column : Z }.

Record Location := mkLocation { loc_start : Position; loc_end : Position }.

(** A token as the tokenizer hands it over: [{ type, value, loc }]. *)
Record Token := mkToken
  { tok_type : string; tok_value : string; tok_loc : Location }.

(** What a call can throw.  [createError] builds the [SyntaxError]s; every
    other JavaScript exception (TypeError, RangeError, ...) is an
    [OtherError]. *)
Inductive Exn :=
| SyntaxError (message : string) (from to : Position)
| OtherError (description : string).

Definition is_SyntaxError (e : Exn) : bool :=
  match e with SyntaxError _ _ _ => true | OtherError _ => false end.

(** A computation that either throws or returns. *)
Inductive Res (A : Type) :=
| Throw (e : Exn)
| Return (a : A).
Arguments Throw {A} e.
Arguments Return {A} a.

(** Modelled from the spec: [createError(source, message, start, end)] of
    [parser/create-error] is not among the sources; it builds the
    [SyntaxError] carrying a message and a source span. *)
Definition createError (source message : string) (from to : Position) : Exn :=
  SyntaxError message from to.

(* ================================================================== *)
(** * JavaScript string primitives used by the parser *)
(* ================================================================== *)

Definition chr (n : nat) : ascii := ascii_of_nat n.

(** The double-quote character and the one-character string holding it. *)
Definition dquote_char : ascii := chr 34.
Definition dquote : string := String dquote_char EmptyString.

(** [s.startsWith(c)] for a one-character [c]. *)
Definition startsWith (c : ascii) (s : string) : bool :=
  match s with
  | String c' _ => Ascii.eqb c' c
  | EmptyString => false
  end.

(** [ends_with suf s]: some tail of [s] is [suf]; this is what the regular
    expression [/suf$/] tests, scanning start positions left to right. *)
Fixpoint ends_with (suf s : string) : bool :=
  if String.eqb s suf then true
  else match s with
       | EmptyString => false
       | String _ r => ends_with suf r
       end.

(** The alternatives of [/(ms|s|m|h|d|y)$/]. *)
Definition duration_units : list string := ["ms"; "s"; "m"; "h"; "d"; "y"].

(** [/(ms|s|m|h|d|y)$/.test(s)]. *)
Definition duration_re (s : string) : bool :=
  existsb (fun u => ends_with u s) duration_units.

(** ** [Number(s)] is NaN

    [Number] applied to a string follows ECMAScript's StringToNumber: the
    text is trimmed of white space, the empty text is [0], and otherwise
    it must be a StrNumericLiteral (signed decimal with optional fraction
    and exponent, [Infinity], or an unsigned [0x]/[0o]/[0b] integer).
    Anything else is NaN.  Only ASCII white space is modelled. *)

Definition is_ws (c : ascii) : bool :=
  let n := nat_of_ascii c in
  (Nat.eqb n 9 || Nat.eqb n 10 || Nat.eqb n 11 || Nat.eqb n 12
   || Nat.eqb n 13 || Nat.eqb n 32)%bool.

Definition in_range (lo hi : nat) (c : ascii) : bool :=
  let n := nat_of_ascii c in (Nat.leb lo n && Nat.leb n hi)%bool.

Definition is_digit (c : ascii) : bool := in_range 48 57 c.
Definition is_octal (c : ascii) : bool := in_range 48 55 c.
Definition is_binary (c : ascii) : bool := in_range 48 49 c.
Definition is_hex (c : ascii) : bool :=
  (is_digit c || in_range 65 70 c || in_range 97 102 c)%bool.

Fixpoint drop_while (f : ascii -> bool) (cs : list ascii) : list ascii :=
  match cs with
  | c :: r => if f c then drop_while f r else cs
  | [] => []
  end.

Fixpoint take_while (f : ascii -> bool) (cs : list ascii) : list ascii :=
  match cs with
  | c :: r => if f c then c :: take_while f r else []
  | [] => []
  end.

Definition trim (cs : list ascii) : list ascii :=
  rev (drop_while is_ws (rev (drop_while is_ws cs))).

Definition is_nil {A} (l : list A) : bool :=
  match l with [] => true | _ => false end.

Definition all_of (f : ascii -> bool) (cs : list ascii) : bool :=
  (negb (is_nil cs) && forallb f cs)%bool.

Definition strip_sign (cs : list ascii) : list ascii :=
  match cs with
  | c :: r => if (Ascii.eqb c "+" || Ascii.eqb c "-")%bool then r else cs
  | [] => []
  end.

(** ExponentPart (optional): [e] or [E], an optional sign, digits. *)
Definition exponent_ok (cs : list ascii) : bool :=
  match cs with
  | [] => true
  | c :: r =>
      ((Ascii.eqb c "e" || Ascii.eqb c "E") && all_of is_digit (strip_sign r))%bool
  end.

(** StrUnsignedDecimalLiteral without the [Infinity] alternative. *)
Definition unsigned_decimal (cs : list ascii) : bool :=
  let int := take_while is_digit cs in
  match drop_while is_digit cs with
  | c :: r =>
      if Ascii.eqb c "." then
        let frac := take_while is_digit r in
        (negb (is_nil int && is_nil frac) && exponent_ok (drop_while is_digit r))%bool
      else (negb (is_nil int) && exponent_ok (c :: r))%bool
  | [] => negb (is_nil int)
  end.

Definition str_decimal (cs : list ascii) : bool :=
  let body := strip_sign cs in
  (String.eqb (string_of_list_ascii body) "Infinity" || unsigned_decimal body)%bool.

Definition non_decimal (cs : list ascii) : bool :=
  match cs with
  | z :: k :: r =>
      (Ascii.eqb z "0" &&
       ((((Ascii.eqb k "x" || Ascii.eqb k "X") && all_of is_hex r))
        || ((Ascii.eqb k "o" || Ascii.eqb k "O") && all_of is_octal r)
        || ((Ascii.eqb k "b" || Ascii.eqb k "B") && all_of is_binary r)))%bool
  | _ => false
  end.

(** [Number.isNaN(Number(s))]. *)
Definition Number_isNaN (s : string) : bool :=
  let cs := trim (list_ascii_of_string s) in
  negb (is_nil cs || non_decimal cs || str_decimal cs).

(* ================================================================== *)
(** * The tree ([src/nodes/index.ts])

    Every class of the node map becomes a constructor.  [Meta] gathers
    what every node may carry besides its own fields: the optional [loc]
    of [BaseNode], and the comment decorations read by the [base] wrapper
    of [printAST.ts].  Fields the classes type as [Identifier], [Ip] or
    [StringLiteral] hold the matching record. *)
(* ================================================================== *)

Record Meta := mkMeta
  { loc : option Location;
    leadingComments : list string;
    trailingComments : list string }.

(** A node built without position or decoration, as a rewrite does. *)
Definition no_meta : Meta := mkMeta None [] [].

(** A node located at [l], as [finishNode] leaves it. *)
Definition at_loc (l : Location) : Meta := mkMeta (Some l) [] [].

Record IdentifierNode := mkIdentifier { id_meta : Meta; name : string }.

Record IpNode := mkIp { ip_meta : Meta; ip_value : string; cidr : option Z }.

Record StringLiteralNode := mkStringLiteral { sl_meta : Meta; sl_value : string }.

Inductive Expression :=
| BooleanLiteral (m : Meta) (value : string)
| StringLiteral (s : StringLiteralNode)
| MultilineLiteral (m : Meta) (value : string)
| DurationLiteral (m : Meta) (value : string)
| NumericLiteral (m : Meta) (value : string)
| Identifier (i : IdentifierNode)
| Ip (i : IpNode)
| Member (m : Meta) (base : Expression) (member : IdentifierNode)
| ValuePair (m : Meta) (base : Expression) (name : IdentifierNode)
| BooleanExpression (m : Meta) (body : Expression)
| UnaryExpression (m : Meta) (operator : string) (argument : Expression)
| FunCallExpression (m : Meta) (callee : Expression) (arguments : list Expression)
| ConcatExpression (m : Meta) (body : list Expression)
| BinaryExpression (m : Meta) (left right : Expression) (operator : string)
| LogicalExpression (m : Meta) (left right : Expression) (operator : string).

(** [BackendDefinition.value] is an expression or an array of nested
    definitions. *)
Inductive BackendDefinition :=
| mkBackendDefinition (m : Meta) (key : string)
                      (value : Expression + list BackendDefinition).

Record TableDefinition := mkTableDefinition
  { td_meta : Meta; td_key : string; td_value : string }.

(** [IfStatement.alternative]: absent, a chained [IfStatement], or the
    statement list of a terminal [else]. *)
Inductive Alternative (S : Type) :=
| NoAlternative
| ElseIf (s : S)
| ElseBlock (block : list S).
Arguments NoAlternative {S}.
Arguments ElseIf {S} s.
Arguments ElseBlock {S} block.

Inductive Statement :=
| ExpressionStatement (m : Meta) (body : Expression)
| IncludeStatement (m : Meta) (module : StringLiteralNode)
| ImportStatement (m : Meta) (module : IdentifierNode)
| CallStatement (m : Meta) (subroutine : IdentifierNode)
| DeclareStatement (m : Meta) (id : Expression) (valueType : string)
| AddStatement (m : Meta) (left right : Expression) (operator : string)
| SetStatement (m : Meta) (left right : Expression) (operator : string)
| UnsetStatement (m : Meta) (id : Expression)
| ReturnStatement (m : Meta) (action : string)
| ErrorStatement (m : Meta) (status : Z) (message : option Expression)
| RestartStatement (m : Meta)
| SyntheticStatement (m : Meta) (response : Expression)
| LogStatement (m : Meta) (content : Expression)
| IfStatement (m : Meta) (test : Expression) (consequent : list Statement)
              (alternative : Alternative Statement)
| SubroutineStatement (m : Meta) (id : IdentifierNode) (body : list Statement)
| AclStatement (m : Meta) (id : IdentifierNode) (body : list IpNode)
| BackendStatement (m : Meta) (id : IdentifierNode) (body : list BackendDefinition)
| TableStatement (m : Meta) (id : IdentifierNode) (body : list TableDefinition).

Record Program := mkProgram { prog_meta : Meta; prog_body : list Statement }.

(** The union type [Node]. *)
Inductive Node :=
| NProgram (p : Program)
| NExpression (e : Expression)
| NStatement (s : Statement)
| NBackendDefinition (b : BackendDefinition)
| NTableDefinition (t : TableDefinition).

Definition stmt_meta (s : Statement) : Meta :=
  match s with
  | ExpressionStatement m _ | IncludeStatement m _ | ImportStatement m _
  | CallStatement m _ | DeclareStatement m _ _ | AddStatement m _ _ _
  | SetStatement m _ _ _ | UnsetStatement m _ | ReturnStatement m _
  | ErrorStatement m _ _ | RestartStatement m | SyntheticStatement m _
  | LogStatement m _ | IfStatement m _ _ _ | SubroutineStatement m _ _
  | AclStatement m _ _ | BackendStatement m _ _ | TableStatement m _ _ => m
  end.

(** [node.type] (or [instanceof]) for the classes the printers test. *)
Definition is_BinaryExpression (e : Expression) : bool :=
  match e with BinaryExpression _ _ _ _ => true | _ => false end.

Definition is_LogicalExpression (e : Expression) : bool :=
  match e with LogicalExpression _ _ _ _ => true | _ => false end.

Definition is_Member (e : Expression) : bool :=
  match e with Member _ _ _ => true | _ => false end.

(** [node.operator] where the node has one. *)
Definition operator_of (e : Expression) : option string :=
  match e with
  | UnaryExpression _ op _ | BinaryExpression _ _ _ op
  | LogicalExpression _ _ _ op => Some op
  | _ => None
  end.

(* ================================================================== *)
(** * The parser's token cursor *)
(* ================================================================== *)

(** Modelled from the spec: the [Parser] class ([src/parser/index.ts]) is
    not among the sources.  The specification describes it as a reader over
    the immutable token sequence with a cursor that can be saved and
    restored, an integer token index. *)
Record Parser := mkParser
  { source : string; tokens : list Token; cur : nat }.

(** Modelled from the spec: [p.getCursor()] saves the token index. *)
Definition getCursor (p : Parser) : nat := cur p.

(** Modelled from the spec: [p.jumpTo(cursor)] restores a saved index and
    leaves the token sequence as it is. *)
Definition jumpTo (p : Parser) (c : nat) : Parser :=
  mkParser (source p) (tokens p) c.

(** Modelled from the spec: [p.peek()] is the token under the cursor, if
    any, and does not move. *)
Definition peek (p : Parser) : option Token := nth_error (tokens p) (cur p).

(** Modelled from the spec: [p.take()] steps over the token under the
    cursor. *)
Definition take (p : Parser) : Parser := jumpTo p (S (cur p)).

Definition origin : Position := mkPosition 0 0 0.

(** Where the input ends: the end of the last token. *)
Definition end_of_input (p : Parser) : Position :=
  match rev (tokens p) with
  | t :: _ => loc_end (tok_loc t)
  | [] => origin
  end.

(** Modelled from the spec: [p.read()] returns the token under the cursor
    and steps over it; exhaustion of the input in the middle of a construct
    is a [SyntaxError]. *)
Definition read (p : Parser) : Res (Token * Parser) :=
  match peek p with
  | Some t => Return (t, take p)
  | None =>
      Throw (createError (source p) "Unexpected EOF" (end_of_input p) (end_of_input p))
  end.

(** Modelled from the spec: [isToken(token, type, value)] of [utils/token]
    is not among the sources; a token matches when its kind and its literal
    value are the ones given. *)
Definition isToken (t : Token) (type value : string) : bool :=
  (String.eqb (tok_type t) type && String.eqb (tok_value t) value)%bool.

(** A [symbol] token, for examples. *)
Definition symbol (v : string) (at_line : Z) : Token :=
  mkToken "symbol" v
          (mkLocation (mkPosition 0 at_line 1) (mkPosition 0 at_line 1)).

(* ================================================================== *)
(** * [parseLiteral] ([src/parser/literal.ts]) *)
(* ================================================================== *)

Section ParseLiteral.

(** [p.finishNode(node, type, values)] completes the location of the
    node opened by [p.startNode()]; how it does so is the parser's
    business and stays a parameter. *)
Variable finishNode : Parser -> Location -> Location.

Definition parseLiteral (p : Parser) (token : Token) (node : Location)
  : Res (option Expression) :=
  let value := tok_value token in
  let m := at_loc (finishNode p node) in
  if String.eqb (tok_type token) "boolean" then
    Return (Some (BooleanLiteral m value))
  else if String.eqb (tok_type token) "string" then
    Return (Some (StringLiteral (mkStringLiteral m value)))
  else if String.eqb (tok_type token) "numeric" then
    if duration_re value then
      Return (Some (DurationLiteral m value))
    else if negb (Number_isNaN value) then
      if (negb (Nat.eqb (String.length value) 1) && startsWith "0" value)%bool then
        Throw (createError (source p) "invalid number" (loc_start node) (loc_end node))
      else
        Return (Some (NumericLiteral m value))
    else
      Throw (createError (source p) "invalid token" (loc_start node) (loc_end node))
  else
    Return None.

End ParseLiteral.

(** A [numeric] token with text [v]. *)
Definition numeric (v : string) (l : Location) : Token := mkToken "numeric" v l.

(* ================================================================== *)
(** * [parseExpr] ([src/parser/expression/index.ts]) *)
(* ================================================================== *)

(** One speculative call of [parseHumbleExpr] inside the loop, kept for
    the proofs only: the token it was given, whether that token was read
    after a [+], and the cursor and outcome the call came back with. *)
Record Attempt := mkAttempt
  { att_token : Token;
    att_joined : bool;   (* the token was read after a [+] *)
    att_cursor : nat;
    att_result : Res Expression }.

(** How a run of the loop ends. *)
Inductive LoopEnd :=
| OutOfFuel
| Raised (e : Exn) (at_cursor : nat)
| Finished (at_cursor backup : nat) (buf : list Expression).

Section ParseExpr.

(** The two expression parsers [parseExpr] calls live in sibling modules
    ([./operator], [./humble]).  They mutate the parser's cursor and
    either return a node or throw: here they return the cursor they
    leave behind together with the outcome. *)
Variable parseOperatorExpr : Parser -> Token -> nat * Res Expression.
Variable parseHumbleExpr : Parser -> Token -> nat * Res Expression.

(** [p.startNode()] and the location [p.finishNode] completes. *)
Variable startNode : Parser -> Location.
Variable finishNode : Parser -> Location -> Location.

(** The [while (nextToken)] loop.  [trace] records the attempts made so
    far (most recent last); it is not read by the loop. *)
Fixpoint concat_loop (fuel : nat) (p : Parser) (backup : nat)
         (buf : list Expression) (nextToken : option Token)
         (trace : list Attempt) : LoopEnd * list Attempt :=
  match fuel with
  | O => (OutOfFuel, trace)
  | S fuel' =>
      match nextToken with
      | None => (Finished (cur p) backup buf, trace)
      | Some t =>
          let p1 := take p in
          if isToken t "symbol" ";" then
            (Finished (cur p1) backup buf, trace)
          else
            match (if isToken t "symbol" "+" then read p1
                   else Return (t, p1)) with
            | Throw e => (Raised e (cur p1), trace)
            | Return (t2, p2) =>
                let '(c3, r) := parseHumbleExpr p2 t2 in
                let trace' :=
                  trace ++ [mkAttempt t2 (isToken t "symbol" "+") c3 r] in
                match r with
                | Return expr =>
                    let p3 := jumpTo p2 c3 in
                    concat_loop fuel' p3 (getCursor p3) (buf ++ [expr])
                                (peek p3) trace'
                | Throw e =>
                    if is_SyntaxError e then
                      (Finished c3 backup buf, trace')
                    else (Raised e c3, trace')
                end
            end
      end
  end.

(** Iterations the loop can need: each one steps over a token. *)
Definition loop_fuel (p : Parser) : nat := S (length (tokens p) - cur p).

(** What [parseExpr] hands back: the parser as it leaves it, what it
    returns or throws, and the attempts its loop made. *)
Record ExprRun := mkExprRun
  { run_parser : Parser;
    run_result : option (Res Expression);
    run_buf : list Expression;
    run_trace : list Attempt }.

(** [parseExpr(p, token, shortcut)].  [run_result] is [None] only when
    the loop ran out of fuel. *)
Definition parseExpr (p : Parser) (token : Token) (shortcut : bool) : ExprRun :=
  match parseOperatorExpr p token with
  | (c0, Throw e) => mkExprRun (jumpTo p c0) (Some (Throw e)) [] []
  | (c0, Return expr) =>
      let p0 := jumpTo p c0 in
      if shortcut then mkExprRun p0 (Some (Return expr)) [expr] []
      else
        let node := startNode p0 in
        if isToken token "symbol" ";" then
          mkExprRun p0 (Some (Return expr)) [expr] []
        else
          let backup := getCursor p0 in
          match concat_loop (loop_fuel p0) p0 backup [expr] (peek p0) [] with
          | (OutOfFuel, tr) => mkExprRun p0 None [expr] tr
          | (Raised e c, tr) => mkExprRun (jumpTo p0 c) (Some (Throw e)) [expr] tr
          | (Finished _ backup' buf, tr) =>
              let p' := jumpTo p0 backup' in
              if Nat.eqb (length buf) 1 then
                mkExprRun p' (Some (Return expr)) buf tr
              else
                mkExprRun p'
                  (Some (Return (ConcatExpression (at_loc (finishNode p' node)) buf)))
                  buf tr
          end
  end.

End ParseExpr.

(* ================================================================== *)
(** * The document algebra ([prettier/doc] builders)

    The printers only build documents; rendering them to text is
    prettier's work.  A string is a document ([Text]). *)
(* ================================================================== *)

Inductive Doc :=
| Text (s : string)
| Concat (parts : list Doc)
| Group (contents : Doc)
| Indent (contents : Doc)
| Line
| Softline
| Hardline
| IfBreak (breakContents flatContents : Doc).

Coercion Text : string >-> Doc.

(** The empty string, written [''] in the source. *)
Definition empty : Doc := Text EmptyString.

Fixpoint intersperse (sep : Doc) (docs : list Doc) : list Doc :=
  match docs with
  | [] => []
  | [d] => [d]
  | d :: rest => d :: sep :: intersperse sep rest
  end.

(** [b.join(sep, docs)]. *)
Definition join (sep : Doc) (docs : list Doc) : Doc :=
  Concat (intersperse sep docs).

(** JavaScript truthiness of a document: only the empty string is falsy. *)
Definition truthy (d : Doc) : bool :=
  match d with
  | Text EmptyString => false
  | _ => true
  end.

(** [n.toString()] and the interpolation of an integer-valued number. *)
Definition toString (n : Z) : string := NilZero.string_of_int (Z.to_int n).

(** The printer's line counter. *)
Record State := mkState { lineNum : Z }.

(** The second argument of [Member.print] and of [printNode]:
    [{ neverBreak = false, broken = false }]. *)
Record Options := mkOptions { neverBreak : bool; broken : bool }.

Definition no_options : Options := mkOptions false false.
Definition never_break : Options := mkOptions true false.

(** ** [printStatements]

    The same function text appears in [nodes/index.ts] (calling
    [stmt.print(state)]) and in [printAST.ts] (calling
    [printNode(stmt, state)]); the statement printer is the parameter. *)
Section PrintStatements.

Variable print1 : Statement -> State -> Doc * State.

(** The [if (stmt.loc && ...)] block: the hard breaks pushed before a
    statement, and the counter afterwards. *)
Definition catch_up (stmt : Statement) (state : State) : list Doc * State :=
  match loc (stmt_meta stmt) with
  | Some l =>
      if (line (loc_start l) >? lineNum state)%Z then
        (repeat Hardline (Z.to_nat (line (loc_start l) - lineNum state)),
         mkState (line (loc_start l)))
      else ([], state)
  | None => ([], state)
  end.

(** The [for (const stmt of stmts)] loop, [doc] being the array built so
    far. *)
Fixpoint statements_loop (state : State) (stmts : list Statement)
         (doc : list Doc) : list Doc * State :=
  match stmts with
  | [] => (doc, state)
  | stmt :: rest =>
      let '(breaks, state1) := catch_up stmt state in
      let '(printed, state2) := print1 stmt state1 in
      statements_loop (mkState (lineNum state2 + 1)) rest
                      (doc ++ breaks ++ [printed; Hardline])
  end.

(** [doc.pop()] drops the last hard break, then [b.concat(doc)]. *)
Definition printStatements (state : State) (stmts : list Statement)
  : Doc * State :=
  let '(doc, state') := statements_loop state stmts [] in
  (Concat (removelast doc), state').

End PrintStatements.

(** Truthiness of an optional number ([cidr?: number]): present and not
    zero. *)
Definition number_truthy (n : option Z) : bool :=
  match n with
  | Some z => negb (Z.eqb z 0)
  | None => false
  end.

(** [`${n}`] for an optional number. *)
Definition interpolate (n : option Z) : string :=
  match n with
  | Some z => toString z
  | None => "undefined"
  end.

(* ================================================================== *)
(** * The [print] methods of the node classes ([src/nodes/index.ts])

    An expression's [print(state)] neither reads nor writes the state, so
    it is a function of the node and of the options [Member.print] takes;
    a statement's [print(state)] threads the line counter. *)
(* ================================================================== *)

Module Nodes.

Definition Identifier_print (i : IdentifierNode) : Doc := Text (name i).

Definition Ip_print (i : IpNode) : Doc :=
  if number_truthy (cidr i)
  then Text (dquote ++ ip_value i ++ dquote ++ "/" ++ interpolate (cidr i))
  else Text (dquote ++ ip_value i ++ dquote).

Definition StringLiteral_print (s : StringLiteralNode) : Doc := Text (sl_value s).

Fixpoint print (e : Expression) (options : Options) : Doc :=
  match e with
  | BooleanLiteral _ value => Text value
  | StringLiteral s => StringLiteral_print s
  | MultilineLiteral _ value => Text value
  | DurationLiteral _ value => Text value
  | NumericLiteral _ value => Text value
  | Identifier i => Identifier_print i
  | Ip i => Ip_print i
  | Member _ base member =>
      let shouldBreak :=
        (negb (neverBreak options) && (is_Member base || broken options))%bool in
      Concat
        [Group
           (Concat
              [print base (mkOptions (neverBreak options) shouldBreak);
               Indent
                 (Concat [if shouldBreak then Softline else empty;
                          Text "."; Identifier_print member])])]
  | ValuePair _ base name =>
      Concat [print base no_options; Text ":"; Identifier_print name]
  | BooleanExpression _ body =>
      Group
        (Concat
           [Indent (Concat [Text "("; IfBreak Softline empty; print body no_options]);
            IfBreak Softline empty;
            Text ")"])
  | UnaryExpression _ operator argument =>
      Concat [Text operator; print argument no_options]
  | FunCallExpression _ callee arguments =>
      Concat
        [print callee no_options;
         Text "(";
         Group
           (Concat
              [Indent
                 (Concat
                    [IfBreak Line empty;
                     join (Concat [Text ","; Line])
                          (map (fun n => print n no_options) arguments);
                     IfBreak (Text ",") empty]);
               IfBreak Line empty]);
         Text ")"]
  | ConcatExpression _ body =>
      Group (Indent (join Line (map (fun n => print n no_options) body)))
  | BinaryExpression _ lhs rhs operator =>
      let lhs' :=
        if is_BinaryExpression lhs
        then Concat [Text "("; print lhs no_options; Text ")"]
        else print lhs no_options in
      Group
        (Concat
           [lhs'; Text " ";
            Indent (Concat [Text operator; Line; print rhs no_options])])
  | LogicalExpression _ lhs rhs operator =>
      let lhs' :=
        if (is_LogicalExpression lhs && String.eqb operator "||"
            && match operator_of lhs with
               | Some op => String.eqb op "&&"
               | None => false
               end)%bool
        then Concat [Text "("; print lhs no_options; Text ")"]
        else print lhs no_options in
      let rhs' :=
        if (is_LogicalExpression rhs && String.eqb operator "||"
            && match operator_of rhs with
               | Some op => String.eqb op "&&"
               | None => false
               end)%bool
        then Concat [Text "("; print rhs no_options; Text ")"]
        else print rhs no_options in
      Group
        (Concat
           [lhs'; Text " ";
            Indent (Concat [Text operator; Line; rhs'])])
  end.

Fixpoint BackendDefinition_print (b : BackendDefinition) : Doc :=
  match b with
  | mkBackendDefinition _ key value =>
      let printedValue :=
        match value with
        | inr defs =>
            Concat
              [Text "{";
               Indent
                 (Concat [Hardline;
                          join Hardline (map BackendDefinition_print defs)]);
               Hardline;
               Text "}"]
        | inl e => Concat [print e no_options; Text ";"]
        end in
      Concat [Text "."; Text key; Text " = "; printedValue]
  end.

Definition TableDefinition_print (t : TableDefinition) : Doc :=
  Concat [Text (td_key t); Text ":"; Text (td_value t)].

Fixpoint Statement_print (s : Statement) (state : State) : Doc * State :=
  match s with
  | ExpressionStatement _ body =>
      (Concat [print body no_options; Text ";"], state)
  | IncludeStatement _ module =>
      (Concat [Text "include "; StringLiteral_print module; Text ";"], state)
  | ImportStatement _ module =>
      (Concat [Text "import "; Identifier_print module; Text ";"], state)
  | CallStatement _ subroutine =>
      (Concat [Text "call "; Identifier_print subroutine; Text ";"], state)
  | DeclareStatement _ id valueType =>
      (Concat [Text "declare "; Text "local "; print id never_break;
               Text " "; Text valueType; Text ";"], state)
  | AddStatement _ lhs rhs operator =>
      (Group
         (Indent
            (Concat [Text "add "; print lhs never_break; Text " ";
                     Text operator; Line; print rhs never_break; Text ";"])),
       state)
  | SetStatement _ lhs rhs operator =>
      (Group
         (Indent
            (Concat [Text "set "; print lhs never_break; Text " ";
                     Text operator; Line; print rhs never_break; Text ";"])),
       state)
  | UnsetStatement _ id =>
      (Concat [Text "unset "; print id never_break; Text ";"], state)
  | ReturnStatement _ action =>
      (Concat [Text "return "; Text "("; Text action; Text ")"; Text ";"], state)
  | ErrorStatement _ status message =>
      (Concat
         [join (Text " ")
               (filter truthy
                  ([Text "error"; Text (toString status)]
                     ++ match message with
                        | Some e => [print e no_options]
                        | None => []
                        end));
          Text ";"],
       state)
  | RestartStatement _ => (Text "restart;", state)
  | SyntheticStatement _ response =>
      (Concat [Text "synthetic "; print response no_options; Text ";"], state)
  | LogStatement _ content =>
      (Concat [Text "log "; print content no_options; Text ";"], state)
  | IfStatement _ test consequent alternative =>
      let testDoc :=
        Group
          (Concat
             [Indent (Concat [Text "("; IfBreak Hardline empty; print test no_options]);
              IfBreak Hardline empty;
              Text ") "]) in
      let '(body, state1) := printStatements Statement_print state consequent in
      let doc := [Text "if "; testDoc; Text "{"; Indent body; Hardline; Text "}"] in
      match alternative with
      | NoAlternative => (Concat doc, state1)
      | ElseBlock block =>
          let '(alt, state2) := printStatements Statement_print state1 block in
          (Concat (doc ++ [Text " else {"; Indent alt; Hardline; Text "}"]), state2)
      | ElseIf s' =>
          let '(alt, state2) := Statement_print s' state1 in
          (Concat (doc ++ [Text " else "; alt]), state2)
      end
  | SubroutineStatement _ id body =>
      let '(printed, state1) := printStatements Statement_print state body in
      (Concat [Text "sub "; Identifier_print id; Text " {";
               Indent printed; Hardline; Text "}"], state1)
  | AclStatement _ id body =>
      (Concat
         [Text "acl "; Identifier_print id; Text " {";
          Indent
            (Concat
               [Hardline;
                join Hardline
                     (map (fun ip => Concat [ip; Text ";"]) (map Ip_print body))]);
          Hardline; Text "}"], state)
  | BackendStatement _ id body =>
      (Concat
         [Text "backend "; Identifier_print id; Text " ";
          Concat
            [Text "{";
             Indent
               (Concat [Hardline;
                        join Hardline (map BackendDefinition_print body)]);
             Hardline; Text "}"]], state)
  | TableStatement _ id body =>
      (Concat
         [Text "table "; Identifier_print id; Text " {";
          Indent
            (Concat
               [Hardline;
                join (Concat [Text ","; Hardline])
                     (map TableDefinition_print body)]);
          Hardline; Text "}"], state)
  end.


End Nodes.

(* ================================================================== *)
(** * The printer of [src/generator/printAST.ts]

    [printNode] switches on [node.type] and calls the printer of that
    type; every printer is wrapped by [base], which adds the node's
    comments.  [printExpression] and [printStatement] are the cases of
    that switch for the two families; the options only reach
    [printMember].  The [DirectorStatement] case has no class in
    [nodes/index.ts] and is left out of the tree. *)
(* ================================================================== *)

Module PrintAST.

(** The wrapper [base(printer)], given the printer's result. *)
Definition base (m : Meta) (printed : Doc) : Doc :=
  let printed1 :=
    if negb (is_nil (leadingComments m))
    then Concat [join Hardline (map Text (leadingComments m)); Hardline; printed]
    else printed in
  if negb (is_nil (trailingComments m))
  then Concat (printed1 :: Text " " :: map Text (trailingComments m))
  else printed1.

Definition printIdentifier (i : IdentifierNode) : Doc :=
  base (id_meta i) (Text (name i)).

Definition printIp (i : IpNode) : Doc :=
  base (ip_meta i)
       (if number_truthy (cidr i)
        then Text (dquote ++ ip_value i ++ dquote ++ "/" ++ interpolate (cidr i))
        else Text (dquote ++ ip_value i ++ dquote)).

Definition printStringLiteral (s : StringLiteralNode) : Doc :=
  base (sl_meta s) (Text (sl_value s)).

Fixpoint printExpression (e : Expression) (options : Options) : Doc :=
  match e with
  | BooleanLiteral m value => base m (Text value)
  | StringLiteral s => printStringLiteral s
  | MultilineLiteral m value => base m (Text value)
  | DurationLiteral m value => base m (Text value)
  | NumericLiteral m value => base m (Text value)
  | Identifier i => printIdentifier i
  | Ip i => printIp i
  | Member m base_ member =>
      let shouldBreak :=
        (negb (neverBreak options) && (is_Member base_ || broken options))%bool in
      base m
        (Concat
           [Group
              (Concat
                 [printExpression base_ (mkOptions (neverBreak options) shouldBreak);
                  Indent
                    (Concat [if shouldBreak then Softline else empty;
                             Text "."; printIdentifier member])])])
  | ValuePair m base_ name =>
      base m (Concat [printExpression base_ no_options; Text ":";
                      printIdentifier name])
  | BooleanExpression m body =>
      base m
        (Group
           (Concat
              [Indent (Concat [Text "("; IfBreak Softline empty;
                               printExpression body no_options]);
               IfBreak Softline empty;
               Text ")"]))
  | UnaryExpression m operator argument =>
      base m (Concat [Text operator; printExpression argument no_options])
  | FunCallExpression m callee args =>
      base m
        (Concat
           [printExpression callee no_options;
            Text "(";
            Group
              (Concat
                 [Indent
                    (Concat
                       [IfBreak Line empty;
                        join (Concat [Text ","; Line])
                             (map (fun n => printExpression n no_options) args);
                        IfBreak (Text ",") empty]);
                  IfBreak Line empty]);
            Text ")"])
  | ConcatExpression m body =>
      base m
        (Group
           (Indent (join Line (map (fun n => printExpression n no_options) body))))
  | BinaryExpression m lhs rhs operator =>
      let lhs' :=
        if is_BinaryExpression lhs
        then Concat [Text "("; printExpression lhs no_options; Text ")"]
        else printExpression lhs no_options in
      base m
        (Group
           (Concat
              [lhs'; Text " ";
               Indent (Concat [Text operator; Line;
                               printExpression rhs no_options])]))
  | LogicalExpression m lhs rhs operator =>
      let lhs' :=
        if (is_LogicalExpression lhs && String.eqb operator "||"
            && match operator_of lhs with
               | Some op => String.eqb op "&&"
               | None => false
               end)%bool
        then Concat [Text "("; printExpression lhs no_options; Text ")"]
        else printExpression lhs no_options in
      let rhs' :=
        if (is_LogicalExpression rhs && String.eqb operator "||"
            && match operator_of rhs with
               | Some op => String.eqb op "&&"
               | None => false
               end)%bool
        then Concat [Text "("; printExpression rhs no_options; Text ")"]
        else printExpression rhs no_options in
      base m
        (Group
           (Concat
              [lhs'; Text " ";
               Indent (Concat [Text operator; Line; rhs'])]))
  end.

Fixpoint printBackendDefinition (b : BackendDefinition) : Doc :=
  match b with
  | mkBackendDefinition m key value =>
      let printedValue :=
        match value with
        | inr defs =>
            Concat
              [Text "{";
               Indent
                 (Concat [Hardline;
                          join Hardline (map printBackendDefinition defs)]);
               Hardline;
               Text "}"]
        | inl e => Concat [printExpression e no_options; Text ";"]
        end in
      base m (Concat [Text "."; Text key; Text " = "; printedValue])
  end.

Definition printTableDefinition (t : TableDefinition) : Doc :=
  base (td_meta t) (Concat [Text (td_key t); Text ":"; Text (td_value t)]).

Fixpoint printStatement (s : Statement) (state : State) : Doc * State :=
  match s with
  | ExpressionStatement m body =>
      (base m (Concat [printExpression body no_options; Text ";"]), state)
  | IncludeStatement m module =>
      (base m (Concat [Text "include "; printStringLiteral module; Text ";"]), state)
  | ImportStatement m module =>
      (base m (Concat [Text "import "; printIdentifier module; Text ";"]), state)
  | CallStatement m subroutine =>
      (base m (Concat [Text "call "; printIdentifier subroutine; Text ";"]), state)
  | DeclareStatement m id valueType =>
      (base m (Concat [Text "declare "; Text "local ";
                       printExpression id never_break;
                       Text " "; Text valueType; Text ";"]), state)
  | AddStatement m lhs rhs operator =>
      (base m
         (Group
            (Indent
               (Concat [Text "add "; printExpression lhs never_break; Text " ";
                        Text operator; Line; printExpression rhs no_options;
                        Text ";"]))),
       state)
  | SetStatement m lhs rhs operator =>
      (base m
         (Group
            (Indent
               (Concat [Text "set "; printExpression lhs never_break; Text " ";
                        Text operator; Line; printExpression rhs never_break;
                        Text ";"]))),
       state)
  | UnsetStatement m id =>
      (base m (Concat [Text "unset "; printExpression id never_break; Text ";"]),
       state)
  | ReturnStatement m action =>
      (base m (Concat [Text "return "; Text "("; Text action; Text ")"; Text ";"]),
       state)
  | ErrorStatement m status message =>
      (base m
         (Concat
            [join (Text " ")
                  (filter truthy
                     ([Text "error"; Text (toString status)]
                        ++ match message with
                           | Some e => [printExpression e no_options]
                           | None => []
                           end));
             Text ";"]),
       state)
  | RestartStatement m => (base m (Text "restart;"), state)
  | SyntheticStatement m response =>
      (base m (Concat [Text "synthetic "; printExpression response no_options;
                       Text ";"]), state)
  | LogStatement m content =>
      (base m (Concat [Text "log "; printExpression content no_options; Text ";"]),
       state)
  | IfStatement m test consequent alternative =>
      let testDoc :=
        Group
          (Concat
             [Indent (Concat [Text "("; IfBreak Hardline empty;
                              printExpression test no_options]);
              IfBreak Hardline empty;
              Text ") "]) in
      let '(body, state1) := printStatements printStatement state consequent in
      let doc := [Text "if "; testDoc; Text "{"; Indent body; Hardline; Text "}"] in
      match alternative with
      | NoAlternative => (base m (Concat doc), state1)
      | ElseBlock block =>
          let '(alt, state2) := printStatements printStatement state1 block in
          (base m (Concat (doc ++ [Text " else {"; Indent alt; Hardline; Text "}"])),
           state2)
      | ElseIf s' =>
          let '(alt, state2) := printStatement s' state1 in
          (base m (Concat (doc ++ [Text " else "; alt])), state2)
      end
  | SubroutineStatement m id body =>
      let '(printed, state1) := printStatements printStatement state body in
      (base m (Concat [Text "sub "; printIdentifier id; Text " {";
                       Indent printed; Hardline; Text "}"]), state1)
  | AclStatement m id body =>
      (base m
         (Concat
            [Text "acl "; printIdentifier id; Text " {";
             Indent
               (Concat
                  [Hardline;
                   join Hardline
                        (map (fun doc => Concat [doc; Text ";"]) (map printIp body))]);
             Hardline; Text "}"]), state)
  | BackendStatement m id body =>
      (base m
         (Concat
            [Text "backend "; printIdentifier id; Text " ";
             Concat
               [Text "{";
                Indent
                  (Concat [Hardline;
                           join Hardline (map printBackendDefinition body)]);
                Hardline; Text "}"]]), state)
  | TableStatement m id body =>
      (base m
         (Concat
            [Text "table "; printIdentifier id; Text " {";
             Indent
               (Concat
                  [Hardline;
                   join (Concat [Text ","; Hardline])
                        (map printTableDefinition body)]);
             Hardline; Text "}"]), state)
  end.

Definition printProgram (p : Program) (state : State) : Doc * State :=
  let '(printed, state') := printStatements printStatement state (prog_body p) in
  (base (prog_meta p) printed, state').

(** [printNode(node, state, options)]. *)
Definition printNode (node : Node) (state : State) (options : Options)
  : Doc * State :=
  match node with
  | NProgram p => printProgram p state
  | NStatement s => printStatement s state
  | NExpression e => (printExpression e options, state)
  | NBackendDefinition b => (printBackendDefinition b, state)
  | NTableDefinition t => (printTableDefinition t, state)
  end.

End PrintAST.

(* ================================================================== *)
(** * [BaseNode.next] ([src/nodes/index.ts])

    [next] is reflective: it looks at the values of the object's own
    properties.  An object is the ordered list of its properties; a value
    is a scalar, a plain object (the location), a node instance or an
    array. *)
(* ================================================================== *)

Inductive Value :=
| VUndefined
| VString (s : string)
| VNumber (n : Z)
| VPlain (l : Location)
| VNode (n : Node)
| VArray (items : list Value).

Definition Object := list (string * Value).

(** [Object.values(o)]. *)
Definition Object_values (o : Object) : list Value := map snd o.

Definition Array_isArray (v : Value) : bool :=
  match v with VArray _ => true | _ => false end.

Definition instanceof_BaseNode (v : Value) : bool :=
  match v with VNode _ => true | _ => false end.

(** [acc.concat(cur)]: an array argument is spread, anything else is
    appended as one element. *)
Definition Array_concat (acc : list Value) (cur : Value) : list Value :=
  match cur with
  | VArray items => acc ++ items
  | _ => acc ++ [cur]
  end.

(** [flat = arr => arr.reduce((acc, cur) => acc.concat(cur), [])]. *)
Definition flat (arr : list Value) : list Value :=
  fold_left Array_concat arr [].

(** [next()]. *)
Definition next (this : Object) : list Value :=
  flat (filter (fun v => (Array_isArray v || instanceof_BaseNode v)%bool)
               (Object_values this)).

(** ** The own properties of a class instance

    A constructor first sets [type], then assigns the fields in the order
    written in its body (an optional field is assigned [undefined] when
    absent); [loc] is added when the node has a location.  The classes
    declare no comment fields, so the decorations of [Meta] are no
    properties here. *)

Definition of_option {A} (f : A -> Value) (o : option A) : Value :=
  match o with Some a => f a | None => VUndefined end.

Definition loc_property (m : Meta) : Object :=
  match loc m with
  | Some l => [("loc", VPlain l)]
  | None => []
  end.

Definition VExpression (e : Expression) : Value := VNode (NExpression e).
Definition VStatement (s : Statement) : Value := VNode (NStatement s).
Definition VIdentifier (i : IdentifierNode) : Value := VExpression (Identifier i).
Definition VIp (i : IpNode) : Value := VExpression (Ip i).

Definition instance (type : string) (m : Meta) (own : Object) : Object :=
  ("type", VString type) :: own ++ loc_property m.

Definition Expression_properties (e : Expression) : Object :=
  match e with
  | BooleanLiteral m value =>
      instance "BooleanLiteral" m [("value", VString value)]
  | StringLiteral s =>
      instance "StringLiteral" (sl_meta s) [("value", VString (sl_value s))]
  | MultilineLiteral m value =>
      instance "MultilineLiteral" m [("value", VString value)]
  | DurationLiteral m value =>
      instance "DurationLiteral" m [("value", VString value)]
  | NumericLiteral m value =>
      instance "NumericLiteral" m [("value", VString value)]
  | Identifier i =>
      instance "Identifier" (id_meta i) [("name", VString (name i))]
  | Ip i =>
      instance "Ip" (ip_meta i)
               [("value", VString (ip_value i)); ("cidr", of_option VNumber (cidr i))]
  | Member m base member =>
      instance "Member" m [("base", VExpression base); ("member", VIdentifier member)]
  | ValuePair m base name =>
      instance "ValuePair" m [("base", VExpression base); ("name", VIdentifier name)]
  | BooleanExpression m body =>
      instance "BooleanExpression" m [("body", VExpression body)]
  | UnaryExpression m operator argument =>
      instance "UnaryExpression" m
               [("operator", VString operator); ("argument", VExpression argument)]
  | FunCallExpression m callee arguments =>
      instance "FunCallExpression" m
               [("callee", VExpression callee);
                ("arguments", VArray (map VExpression arguments))]
  | ConcatExpression m body =>
      instance "ConcatExpression" m [("body", VArray (map VExpression body))]
  | BinaryExpression m lhs rhs operator =>
      instance "BinaryExpression" m
               [("left", VExpression lhs); ("right", VExpression rhs);
                ("operator", VString operator)]
  | LogicalExpression m lhs rhs operator =>
      instance "LogicalExpression" m
               [("left", VExpression lhs); ("right", VExpression rhs);
                ("operator", VString operator)]
  end.

Definition Alternative_value (a : Alternative Statement) : Value :=
  match a with
  | NoAlternative => VUndefined
  | ElseIf s => VStatement s
  | ElseBlock block => VArray (map VStatement block)
  end.

Definition Statement_properties (s : Statement) : Object :=
  match s with
  | ExpressionStatement m body =>
      instance "ExpressionStatement" m [("body", VExpression body)]
  | IncludeStatement m module =>
      instance "IncludeStatement" m [("module", VExpression (StringLiteral module))]
  | ImportStatement m module =>
      instance "ImportStatement" m [("module", VIdentifier module)]
  | CallStatement m subroutine =>
      instance "CallStatement" m [("subroutine", VIdentifier subroutine)]
  | DeclareStatement m id valueType =>
      instance "DeclareStatement" m
               [("id", VExpression id); ("valueType", VString valueType)]
  | AddStatement m lhs rhs operator =>
      instance "AddStatement" m
               [("left", VExpression lhs); ("right", VExpression rhs);
                ("operator", VString operator)]
  | SetStatement m lhs rhs operator =>
      instance "SetStatement" m
               [("left", VExpression lhs); ("right", VExpression rhs);
                ("operator", VString operator)]
  | UnsetStatement m id =>
      instance "UnsetStatement" m [("id", VExpression id)]
  | ReturnStatement m action =>
      instance "ReturnStatement" m [("action", VString action)]
  | ErrorStatement m status message =>
      instance "ErrorStatement" m
               [("status", VNumber status); ("message", of_option VExpression message)]
  | RestartStatement m => instance "RestartStatement" m []
  | SyntheticStatement m response =>
      instance "SyntheticStatement" m [("response", VExpression response)]
  | LogStatement m content =>
      instance "LogStatement" m [("content", VExpression content)]
  | IfStatement m test consequent alternative =>
      instance "IfStatement" m
               [("test", VExpression test);
                ("consequent", VArray (map VStatement consequent));
                ("alternative", Alternative_value alternative)]
  | SubroutineStatement m id body =>
      instance "SubroutineStatement" m
               [("id", VIdentifier id); ("body", VArray (map VStatement body))]
  | AclStatement m id body =>
      instance "AclStatement" m
               [("id", VIdentifier id); ("body", VArray (map VIp body))]
  | BackendStatement m id body =>
      instance "BackendStatement" m
               [("id", VIdentifier id);
                ("body", VArray (map (fun b => VNode (NBackendDefinition b)) body))]
  | TableStatement m id body =>
      instance "TableStatement" m
               [("id", VIdentifier id);
                ("body", VArray (map (fun t => VNode (NTableDefinition t)) body))]
  end.

Definition properties (node : Node) : Object :=
  match node with
  | NProgram p =>
      instance "Program" (prog_meta p) [("body", VArray (map VStatement (prog_body p)))]
  | NExpression e => Expression_properties e
  | NStatement s => Statement_properties s
  | NBackendDefinition (mkBackendDefinition m key value) =>
      instance "BackendDefinition" m
               [("key", VString key);
                ("value",
                 match value with
                 | inl e => VExpression e
                 | inr defs => VArray (map (fun b => VNode (NBackendDefinition b)) defs)
                 end)]
  | NTableDefinition t =>
      instance "TableDefinition" (td_meta t)
               [("key", VString (td_key t)); ("value", VString (td_value t))]
  end.

(** ** The structural children, as the specification words them

    "an ordered enumeration of its immediate structural children (arrays
    and nested nodes only -- scalar fields like operator strings are not
    children)". *)

Definition child_nodes_of_option (o : option Expression) : list Node :=
  match o with Some e => [NExpression e] | None => [] end.

Definition ident (i : IdentifierNode) : Node := NExpression (Identifier i).

Definition children (node : Node) : list Node :=
  match node with
  | NProgram p => map NStatement (prog_body p)
  | NExpression e =>
      match e with
      | BooleanLiteral _ _ | StringLiteral _ | MultilineLiteral _ _
      | DurationLiteral _ _ | NumericLiteral _ _ | Identifier _ | Ip _ => []
      | Member _ base member => [NExpression base; ident member]
      | ValuePair _ base name => [NExpression base; ident name]
      | BooleanExpression _ body => [NExpression body]
      | UnaryExpression _ _ argument => [NExpression argument]
      | FunCallExpression _ callee arguments =>
          NExpression callee :: map NExpression arguments
      | ConcatExpression _ body => map NExpression body
      | BinaryExpression _ lhs rhs _ => [NExpression lhs; NExpression rhs]
      | LogicalExpression _ lhs rhs _ => [NExpression lhs; NExpression rhs]
      end
  | NStatement s =>
      match s with
      | ExpressionStatement _ body => [NExpression body]
      | IncludeStatement _ module => [NExpression (StringLiteral module)]
      | ImportStatement _ module => [ident module]
      | CallStatement _ subroutine => [ident subroutine]
      | DeclareStatement _ id _ => [NExpression id]
      | AddStatement _ lhs rhs _ => [NExpression lhs; NExpression rhs]
      | SetStatement _ lhs rhs _ => [NExpression lhs; NExpression rhs]
      | UnsetStatement _ id => [NExpression id]
      | ReturnStatement _ _ => []
      | ErrorStatement _ _ message => child_nodes_of_option message
      | RestartStatement _ => []
      | SyntheticStatement _ response => [NExpression response]
      | LogStatement _ content => [NExpression content]
      | IfStatement _ test consequent alternative =>
          NExpression test :: map NStatement consequent
            ++ match alternative with
               | NoAlternative => []
               | ElseIf s' => [NStatement s']
               | ElseBlock block => map NStatement block
               end
      | SubroutineStatement _ id body => ident id :: map NStatement body
      | AclStatement _ id body =>
          ident id :: map (fun i => NExpression (Ip i)) body
      | BackendStatement _ id body => ident id :: map NBackendDefinition body
      | TableStatement _ id body => ident id :: map NTableDefinition body
      end
  | NBackendDefinition (mkBackendDefinition _ _ value) =>
      match value with
      | inl e => [NExpression e]
      | inr defs => map NBackendDefinition defs
      end
  | NTableDefinition _ => []
  end.

(** What one property value contributes to [next()]. *)
Definition contribution (v : Value) : list Value :=
  match v with
  | VArray items => items
  | VNode n => [VNode n]
  | _ => []
  end.

(** A scalar: a string, a number, [undefined], or the plain location
    object. *)
Definition scalar (v : Value) : bool :=
  negb (Array_isArray v || instanceof_BaseNode v).

(* ================================================================== *)
(** * Properties of [parseLiteral] *)
(* ================================================================== *)

Lemma ends_with_suffix (suf s : string) :
  ends_with suf s = true <-> exists pre, s = (pre ++ suf)%string.
Proof.
  split.
  - induction s as [|c r IH]; cbn [ends_with].
    + destruct (String.eqb_spec EmptyString suf) as [E|_].
      * intros _. exists EmptyString. exact E.
      * intros H. discriminate H.
    + destruct (String.eqb_spec (String c r) suf) as [E|_].
      * intros _. exists EmptyString. exact E.
      * intros H. destruct (IH H) as [pre ->].
        exists (String c pre). reflexivity.
  - intros [pre ->]. induction pre as [|c pre IH].
    + change (EmptyString ++ suf)%string with suf.
      destruct suf; cbn [ends_with]; rewrite String.eqb_refl; reflexivity.
    + change (String c pre ++ suf)%string with (String c (pre ++ suf)%string).
      cbn [ends_with].
      destruct (String.eqb_spec (String c (pre ++ suf)) suf); [reflexivity|exact IH].
Qed.

(** The regular expression accepts exactly the texts ending in a unit. *)
Lemma duration_re_spec (s : string) :
  duration_re s = true <->
  exists pre u, In u duration_units /\ s = (pre ++ u)%string.
Proof.
  unfold duration_re. rewrite existsb_exists. split.
  - intros [u [Hin H]]. apply ends_with_suffix in H as [pre ->]. eauto.
  - intros [pre [u [Hin ->]]]. exists u. split; [exact Hin|].
    apply ends_with_suffix. eauto.
Qed.

Section ParseLiteralFacts.

Variable finishNode : Parser -> Location -> Location.

Lemma parseLiteral_duration (p : Parser) (v : string) (l node : Location) :
  duration_re v = true ->
  parseLiteral finishNode p (numeric v l) node
  = Return (Some (DurationLiteral (at_loc (finishNode p node)) v)).
Proof.
  intros H. unfold parseLiteral; simpl. rewrite H. reflexivity.
Qed.

Lemma parseLiteral_not_duration (p : Parser) (v : string) (l node : Location) m :
  duration_re v = false ->
  parseLiteral finishNode p (numeric v l) node <> Return (Some (DurationLiteral m v)).
Proof.
  intros H. unfold parseLiteral; simpl. rewrite H.
  destruct (Number_isNaN v); simpl; [discriminate|].
  destruct (negb (String.length v =? 1)%nat && startsWith "0" v)%bool; discriminate.
Qed.

Lemma parseLiteral_leading_zero (p : Parser) (v : string) (l node : Location) :
  duration_re v = false ->
  1 < String.length v ->
  startsWith "0" v = true ->
  exists message,
    parseLiteral finishNode p (numeric v l) node
    = Throw (SyntaxError message (loc_start node) (loc_end node)).
Proof.
  intros Hd Hlen Hz. unfold parseLiteral; simpl. rewrite Hd, Hz.
  destruct (Nat.eqb_spec (String.length v) 1) as [E|_]; [lia|].
  destruct (Number_isNaN v); simpl; unfold createError; eauto.
Qed.

End ParseLiteralFacts.

(** C4.  Numeric literal classification: the token [35s] is a duration
    literal with raw value [35s], the token [035] is a syntax error and the
    token [0] is a numeric literal; a numeric token becomes a duration
    literal exactly when its text ends in one of the units ms, s, m, h, d,
    y; and a numeric token without such a suffix that has more than one
    character and starts with [0] is a syntax error. *)
Theorem numeric_literal_classification
        (finishNode : Parser -> Location -> Location)
        (p : Parser) (l node : Location) :
  parseLiteral finishNode p (numeric "35s" l) node
  = Return (Some (DurationLiteral (at_loc (finishNode p node)) "35s"))
  /\ (exists message from to,
         parseLiteral finishNode p (numeric "035" l) node
         = Throw (SyntaxError message from to))
  /\ parseLiteral finishNode p (numeric "0" l) node
     = Return (Some (NumericLiteral (at_loc (finishNode p node)) "0"))
  /\ (forall v,
         (exists m, parseLiteral finishNode p (numeric v l) node
                    = Return (Some (DurationLiteral m v)))
         <-> (exists pre u, In u duration_units /\ v = (pre ++ u)%string))
  /\ (forall v,
         duration_re v = false ->
         1 < String.length v ->
         startsWith "0" v = true ->
         exists message from to,
           parseLiteral finishNode p (numeric v l) node
           = Throw (SyntaxError message from to)).
Proof.
  split; [reflexivity|].
  split; [do 3 eexists; reflexivity|].
  split; [reflexivity|].
  split.
  - intros v. rewrite <- duration_re_spec. split.
    + intros [m H]. destruct (duration_re v) eqn:E; [reflexivity|].
      exfalso. exact (parseLiteral_not_duration finishNode p v l node m E H).
    + intros H. eexists. apply parseLiteral_duration. exact H.
  - intros v Hd Hlen Hz.
    destruct (parseLiteral_leading_zero finishNode p v l node Hd Hlen Hz) as [msg H].
    eauto.
Qed.

(** The token [007]: no unit suffix, three characters, a leading [0]. *)
Lemma numeric_literal_classification_witness :
  duration_re "007" = false
  /\ 1 < String.length "007"
  /\ startsWith "0" "007" = true
  /\ exists message from to,
       parseLiteral (fun _ node => node) (mkParser "007" [] 0)
                    (numeric "007" (mkLocation origin origin))
                    (mkLocation origin origin)
       = Throw (SyntaxError message from to).
Proof.
  split; [reflexivity|]. split; [simpl; lia|]. split; [reflexivity|].
  apply (proj2 (proj2 (proj2 (proj2
           (numeric_literal_classification
              (fun _ node => node) (mkParser "007" [] 0)
              (mkLocation origin origin) (mkLocation origin origin)))))).
  - reflexivity.
  - simpl; lia.
  - reflexivity.
Defined.

(** C10.  The unit-suffix test comes first: every numeric token whose text
    ends in one of the units is returned as a duration literal carrying the
    raw text, whatever the leading-zero and not-a-number tests would have
    said; so [035s] is a duration literal and not a syntax error. *)
Theorem duration_suffix_takes_priority
        (finishNode : Parser -> Location -> Location)
        (p : Parser) (l node : Location) (pre u : string) :
  In u duration_units ->
  parseLiteral finishNode p (numeric (pre ++ u) l) node
  = Return (Some (DurationLiteral (at_loc (finishNode p node)) (pre ++ u))).
Proof.
  intros Hin. apply parseLiteral_duration. apply duration_re_spec. eauto.
Qed.

(** The token [035s]: its text starts with [0], is longer than one
    character and is not a number, and it is still a duration literal. *)
Lemma duration_suffix_takes_priority_witness :
  In "s" duration_units
  /\ startsWith "0" "035s" = true
  /\ Number_isNaN "035s" = true
  /\ parseLiteral (fun _ node => node) (mkParser "035s" [] 0)
                  (numeric ("035" ++ "s") (mkLocation origin origin))
                  (mkLocation origin origin)
     = Return (Some (DurationLiteral (at_loc (mkLocation origin origin)) "035s")).
Proof.
  split; [simpl; tauto|].
  split; [reflexivity|].
  split; [reflexivity|].
  apply (duration_suffix_takes_priority
           (fun _ node => node) (mkParser "035s" [] 0)
           (mkLocation origin origin) (mkLocation origin origin) "035" "s").
  simpl; tauto.
Defined.

(* ================================================================== *)
(** * Properties of [parseExpr] *)
(* ================================================================== *)

(** The attempts that returned a node, and the nodes they returned. *)
Definition succeeded (a : Attempt) : bool :=
  match att_result a with Return _ => true | Throw _ => false end.

Definition successes (trace : list Attempt) : list Expression :=
  flat_map (fun a => match att_result a with
                     | Return e => [e]
                     | Throw _ => []
                     end) trace.

(** The cursor saved by the last successful attempt of [trace], or [c0]
    when there is none. *)
Definition last_saved (c0 : nat) (trace : list Attempt) : nat :=
  last (map att_cursor (filter succeeded trace)) c0.

(** An attempt on a [;] token is one whose token was read after a [+]. *)
Definition semicolon_only_after_plus (a : Attempt) : Prop :=
  isToken (att_token a) "symbol" ";" = true -> att_joined a = true.

(** Number of nodes below and including [e]. *)
Fixpoint size (e : Expression) : nat :=
  match e with
  | Member _ b _ | ValuePair _ b _ | BooleanExpression _ b
  | UnaryExpression _ _ b => S (size b)
  | FunCallExpression _ callee args => S (size callee + list_sum (map size args))
  | ConcatExpression _ body => S (list_sum (map size body))
  | BinaryExpression _ l r _ | LogicalExpression _ l r _ => S (size l + size r)
  | _ => 1
  end.

Lemma not_its_own_concat (e : Expression) (m : Meta) :
  e <> ConcatExpression m [e].
Proof.
  intros H. apply (f_equal size) in H. simpl in H. lia.
Qed.

Lemma last_cons_default {A} (l : list A) (c d : A) :
  last (c :: l) d = last l c.
Proof.
  revert c d. induction l as [|x l IH]; intros c d; [reflexivity|].
  change (last (c :: x :: l) d) with (last (x :: l) d).
  rewrite (IH x d), (IH x c). reflexivity.
Qed.

Lemma successes_app (t1 t2 : list Attempt) :
  successes (t1 ++ t2) = successes t1 ++ successes t2.
Proof. unfold successes. apply flat_map_app. Qed.

Lemma failed_not_among_successes (trace : list Attempt) (a : Attempt) (e : Exn) :
  forallb succeeded trace = true -> In a trace -> att_result a = Throw e -> False.
Proof.
  intros Hall Hin Ha. rewrite forallb_forall in Hall. specialize (Hall a Hin).
  unfold succeeded in Hall. rewrite Ha in Hall. discriminate.
Qed.

Lemma successes_all (trace : list Attempt) :
  forallb succeeded trace = true -> filter succeeded trace = trace.
Proof.
  induction trace as [|a tr IH]; simpl; [reflexivity|].
  intros H. apply andb_true_iff in H as [Ha Htr]. rewrite Ha, (IH Htr). reflexivity.
Qed.

(** What a finished run of the loop guarantees about the attempts [new] it
    added: all but the last succeeded; the buffer grew by the successes;
    the saved cursor is that of the last success; a failing last attempt
    threw a [SyntaxError] when the loop finished, and anything else when
    the loop raised. *)
Definition loop_post (backup : nat) (buf : list Expression)
           (new : list Attempt) (lend : LoopEnd) : Prop :=
  match lend with
  | OutOfFuel => forallb succeeded new = true
  | Finished _ backup' buf' =>
      buf' = buf ++ successes new
      /\ backup' = last_saved backup new
      /\ (forallb succeeded new = true
          \/ exists good a e,
               new = good ++ [a] /\ forallb succeeded good = true
               /\ att_result a = Throw e /\ is_SyntaxError e = true)
  | Raised e _ =>
      forallb succeeded new = true
      \/ exists good a,
           new = good ++ [a] /\ forallb succeeded good = true
           /\ att_result a = Throw e /\ is_SyntaxError e = false
  end.

Lemma loop_post_after_success backup buf a expr new lend :
  att_result a = Return expr ->
  loop_post (att_cursor a) (buf ++ [expr]) new lend ->
  loop_post backup buf (a :: new) lend.
Proof.
  intros Ha.
  assert (Hs : succeeded a = true) by (unfold succeeded; rewrite Ha; reflexivity).
  destruct lend as [|e c'|c' backup' buf']; cbn [loop_post].
  - intros H. cbn [forallb]. rewrite Hs, H. reflexivity.
  - intros [H|[good [a' [-> [Hg [Ha' He]]]]]].
    + left. cbn [forallb]. rewrite Hs, H. reflexivity.
    + right. exists (a :: good), a'. cbn [forallb]. rewrite Hs, Hg. auto.
  - intros [-> [-> H]]. split; [|split].
    + change (a :: new) with ([a] ++ new). rewrite successes_app.
      unfold successes at 2. cbn [flat_map]. rewrite Ha, <- app_assoc. reflexivity.
    + unfold last_saved. cbn [filter]. rewrite Hs. cbn [map].
      symmetry. apply last_cons_default.
    + destruct H as [H|[good [a' [e [-> [Hg [Ha' He]]]]]]].
      * left. cbn [forallb]. rewrite Hs, H. reflexivity.
      * right. exists (a :: good), a', e. cbn [forallb]. rewrite Hs, Hg. auto.
Qed.

Section ParseExprFacts.

Variable parseOperatorExpr : Parser -> Token -> nat * Res Expression.
Variable parseHumbleExpr : Parser -> Token -> nat * Res Expression.
Variable startNode : Parser -> Location.
Variable finishNode : Parser -> Location -> Location.

Local Abbreviation loop := (concat_loop parseHumbleExpr).

(** The loop only appends to the trace, and what it appends obeys
    [loop_post]. *)
(** Closes the cases of the loop that end without a new attempt. *)
Ltac no_new_attempt :=
  exists []; cbn [fst snd loop_post]; rewrite ?app_nil_r;
  unfold last_saved; simpl;
  repeat split; auto using Forall_nil.

Lemma concat_loop_post fuel :
  forall p backup buf nextToken trace,
  exists new,
    snd (loop fuel p backup buf nextToken trace) = trace ++ new
    /\ loop_post backup buf new (fst (loop fuel p backup buf nextToken trace))
    /\ Forall semicolon_only_after_plus new.
Proof.
  induction fuel as [|fuel IH]; intros p backup buf nextToken trace.
  - no_new_attempt.
  - cbn [concat_loop].
    destruct nextToken as [t|]; [|no_new_attempt].
    destruct (isToken t "symbol" ";") eqn:Hsemi; [no_new_attempt|].
    assert (Hjoin : forall t2 p2 c r,
               (if isToken t "symbol" "+" then read (take p) else Return (t, take p))
               = Return (t2, p2) ->
               semicolon_only_after_plus (mkAttempt t2 (isToken t "symbol" "+") c r)).
    { intros t2 p2 c r E. unfold semicolon_only_after_plus. cbn [att_token att_joined].
      destruct (isToken t "symbol" "+"); [reflexivity|].
      inversion E; subst. rewrite Hsemi. intros H; discriminate H. }
    destruct (if isToken t "symbol" "+" then read (take p) else Return (t, take p))
      as [e|[t2 p2]]; [no_new_attempt|].
    specialize (Hjoin t2 p2).
    destruct (parseHumbleExpr p2 t2) as [c3 r] eqn:Hh.
    set (a := mkAttempt t2 (isToken t "symbol" "+") c3 r).
    specialize (Hjoin c3 r eq_refl). fold a in Hjoin.
    destruct r as [e|expr].
    + destruct (is_SyntaxError e) eqn:He.
      * exists [a]. cbn [fst snd loop_post].
        split; [reflexivity|]. split; [|auto].
        split; [simpl; rewrite app_nil_r; reflexivity|]. split; [reflexivity|].
        right. exists [], a, e. auto.
      * exists [a]. cbn [fst snd loop_post].
        split; [reflexivity|]. split; [|auto].
        right. exists [], a. auto.
    + destruct (IH (jumpTo p2 c3) (getCursor (jumpTo p2 c3)) (buf ++ [expr])
                   (peek (jumpTo p2 c3)) (trace ++ [a]))
        as [new [Htr [Hpost Hsc]]].
      exists (a :: new). split; [|split].
      * rewrite Htr, <- app_assoc. reflexivity.
      * apply (loop_post_after_success backup buf a expr); [reflexivity|exact Hpost].
      * constructor; assumption.
Qed.

(** A [;] under the cursor at the head of an iteration ends the loop at
    once: no attempt is made, buffer and saved cursor are untouched. *)
Lemma concat_loop_semicolon fuel p backup buf t trace :
  isToken t "symbol" ";" = true ->
  loop (S fuel) p backup buf (Some t) trace
  = (Finished (S (cur p)) backup buf, trace).
Proof.
  intros H. cbn [concat_loop]. rewrite H. reflexivity.
Qed.

(** After a [+] the next token is read and handed to [parseHumbleExpr],
    whatever it is. *)
Lemma concat_loop_plus fuel p backup buf t t2 trace :
  isToken t "symbol" "+" = true ->
  peek (take p) = Some t2 ->
  exists rest,
    snd (loop (S fuel) p backup buf (Some t) trace)
    = trace ++ mkAttempt t2 true
                         (fst (parseHumbleExpr (take (take p)) t2))
                         (snd (parseHumbleExpr (take (take p)) t2)) :: rest.
Proof.
  intros Hplus Hpeek. cbn [concat_loop].
  assert (Hsemi : isToken t "symbol" ";" = false).
  { unfold isToken in *. apply andb_true_iff in Hplus as [-> Hv].
    apply String.eqb_eq in Hv. rewrite Hv. reflexivity. }
  rewrite Hsemi, Hplus. unfold read. rewrite Hpeek.
  destruct (parseHumbleExpr (take (take p)) t2) as [c3 r] eqn:Hh.
  cbn [fst snd]. destruct r as [e|expr].
  - exists []. destruct (is_SyntaxError e); reflexivity.
  - destruct (concat_loop_post fuel (jumpTo (take (take p)) c3)
                (getCursor (jumpTo (take (take p)) c3)) (buf ++ [expr])
                (peek (jumpTo (take (take p)) c3))
                (trace ++ [mkAttempt t2 true c3 (Return expr)])) as [new [Htr _]].
    exists new. rewrite Htr, <- app_assoc. reflexivity.
Qed.

(** ** Termination *)

(** A successful [parseHumbleExpr] only consumes tokens. *)
Definition consumes_forward : Prop :=
  forall p t c e, parseHumbleExpr p t = (c, Return e) -> cur p <= c.

Lemma concat_loop_terminates :
  consumes_forward ->
  forall fuel p backup buf trace,
    length (tokens p) - cur p < fuel ->
    fst (loop fuel p backup buf (peek p) trace) <> OutOfFuel.
Proof.
  intros Hfwd. induction fuel as [|fuel IH]; intros p backup buf trace Hlt; [lia|].
  cbn [concat_loop].
  destruct (peek p) as [t|] eqn:Hpeek; [|discriminate].
  assert (Hcur : cur p < length (tokens p)).
  { apply nth_error_Some. unfold peek in Hpeek. congruence. }
  destruct (isToken t "symbol" ";"); [discriminate|].
  assert (Hp2 : forall t2 p2,
             (if isToken t "symbol" "+" then read (take p) else Return (t, take p))
             = Return (t2, p2) ->
             tokens p2 = tokens p /\ S (cur p) <= cur p2).
  { intros t2 p2. destruct (isToken t "symbol" "+").
    - unfold read. destruct (peek (take p)); [|discriminate].
      intros E; inversion E; subst. simpl. split; [reflexivity|lia].
    - intros E; inversion E; subst. simpl. split; [reflexivity|lia]. }
  destruct (if isToken t "symbol" "+" then read (take p) else Return (t, take p))
    as [e|[t2 p2]]; [discriminate|].
  destruct (Hp2 t2 p2 eq_refl) as [Htok Hle].
  destruct (parseHumbleExpr p2 t2) as [c3 r] eqn:Hh.
  destruct r as [e|expr].
  - destruct (is_SyntaxError e); discriminate.
  - apply Hfwd in Hh. apply IH. simpl. rewrite Htok. lia.
Qed.

End ParseExprFacts.

(** ** Sample token streams and operand parsers

    Stand-ins for [parseOperatorExpr] and [parseHumbleExpr] used to run
    [parseExpr] on concrete input: an identifier or string token is an
    operand by itself, anything else is an unexpected token. *)

Definition at_line (n : Z) : Location :=
  mkLocation (mkPosition 0 n 1) (mkPosition 0 n 1).

Definition ident_token (v : string) : Token := mkToken "ident" v (at_line 1).

Definition one_token_operand (p : Parser) (t : Token) : nat * Res Expression :=
  if String.eqb (tok_type t) "ident" then
    (cur p, Return (Identifier (mkIdentifier (at_loc (tok_loc t)) (tok_value t))))
  else if String.eqb (tok_type t) "string" then
    (cur p, Return (StringLiteral (mkStringLiteral (at_loc (tok_loc t)) (tok_value t))))
  else
    (cur p, Throw (createError (source p) "unexpected token"
                               (loc_start (tok_loc t)) (loc_end (tok_loc t)))).

(** The same, except that a [(] makes the operand parser fail with an
    exception that is not a [SyntaxError]. *)
Definition faulty_operand (p : Parser) (t : Token) : nat * Res Expression :=
  if isToken t "symbol" "(" then (cur p, Throw (OtherError "RangeError"))
  else one_token_operand p t.

Definition node_of_token (p : Parser) : Location := at_line 1.
Definition keep_location (p : Parser) (l : Location) : Location := l.

Definition id_a : Expression := Identifier (mkIdentifier (at_loc (at_line 1)) "a").
Definition id_b : Expression := Identifier (mkIdentifier (at_loc (at_line 1)) "b").

Section ParseExprTheorems.

Variable parseOperatorExpr : Parser -> Token -> nat * Res Expression.
Variable parseHumbleExpr : Parser -> Token -> nat * Res Expression.
Variable startNode : Parser -> Location.
Variable finishNode : Parser -> Location -> Location.

Local Abbreviation parse :=
  (parseExpr parseOperatorExpr parseHumbleExpr startNode finishNode).

(** The node [parseExpr] builds over a buffer of two or more members. *)
Definition concat_node (p : Parser) (c0 backup : nat) (buf : list Expression)
  : Expression :=
  ConcatExpression
    (at_loc (finishNode (jumpTo p backup) (startNode (jumpTo p c0)))) buf.

(** How [parseExpr] ends once its first expression is parsed and the
    initial token is not [;]. *)
Lemma parseExpr_unfold p token c0 expr :
  parseOperatorExpr p token = (c0, Return expr) ->
  isToken token "symbol" ";" = false ->
  parse p token false
  = match concat_loop parseHumbleExpr (loop_fuel (jumpTo p c0)) (jumpTo p c0) c0
                      [expr] (peek (jumpTo p c0)) [] with
    | (OutOfFuel, tr) => mkExprRun (jumpTo p c0) None [expr] tr
    | (Raised e c, tr) => mkExprRun (jumpTo p c) (Some (Throw e)) [expr] tr
    | (Finished _ backup' buf, tr) =>
        if Nat.eqb (length buf) 1 then
          mkExprRun (jumpTo p backup') (Some (Return expr)) buf tr
        else
          mkExprRun (jumpTo p backup')
                    (Some (Return (concat_node p c0 backup' buf))) buf tr
    end.
Proof.
  intros Hop Hsemi. unfold parseExpr. rewrite Hop. cbn [negb]. rewrite Hsemi.
  reflexivity.
Qed.

Lemma parseExpr_semicolon p token c0 expr :
  parseOperatorExpr p token = (c0, Return expr) ->
  isToken token "symbol" ";" = true ->
  parse p token false = mkExprRun (jumpTo p c0) (Some (Return expr)) [expr] [].
Proof.
  intros Hop Hsemi. unfold parseExpr. rewrite Hop, Hsemi. reflexivity.
Qed.

End ParseExprTheorems.

Section ParseExprClaims.

Variable parseOperatorExpr : Parser -> Token -> nat * Res Expression.
Variable parseHumbleExpr : Parser -> Token -> nat * Res Expression.
Variable startNode : Parser -> Location.
Variable finishNode : Parser -> Location -> Location.

Local Abbreviation run :=
  (parseExpr parseOperatorExpr parseHumbleExpr startNode finishNode).

(** C2, as amended.  Once the first expression [expr] is parsed, [parseExpr]
    returns or throws (it does not loop for ever, the operand parser only
    consuming tokens).  When it returns [x], its buffer is [expr] followed
    by the expressions of the successful attempts; [x] is the
    [ConcatExpression] over that buffer exactly when the buffer has two or
    more members, and is [expr] itself when it has one.  A [;] as the
    initial token returns [expr] with no attempt made; a [;] under the
    cursor at the head of an iteration ends the loop there, leaving buffer
    and saved cursor as they were and making no attempt.  An attempt is
    made on a [;] token only when that token was read after a [+]; the
    token after a [+] is always handed to the operand parser. *)
Theorem concat_node_iff_two_members
        (p : Parser) (token : Token) (c0 : nat) (expr : Expression) :
  consumes_forward parseHumbleExpr ->
  parseOperatorExpr p token = (c0, Return expr) ->
  (exists r, run_result (run p token false) = Some r)
  /\ (forall x,
         run_result (run p token false) = Some (Return x) ->
         run_buf (run p token false)
         = expr :: successes (run_trace (run p token false))
         /\ ((exists m, x = ConcatExpression m (run_buf (run p token false)))
             <-> 2 <= length (run_buf (run p token false)))
         /\ (length (run_buf (run p token false)) <= 1 -> x = expr))
  /\ (isToken token "symbol" ";" = true ->
      run_trace (run p token false) = []
      /\ run_result (run p token false) = Some (Return expr))
  /\ (forall fuel q backup buf t trace,
         isToken t "symbol" ";" = true ->
         concat_loop parseHumbleExpr (S fuel) q backup buf (Some t) trace
         = (Finished (S (cur q)) backup buf, trace))
  /\ Forall semicolon_only_after_plus (run_trace (run p token false))
  /\ (forall fuel q backup buf t t2 trace,
         isToken t "symbol" "+" = true ->
         peek (take q) = Some t2 ->
         exists rest,
           snd (concat_loop parseHumbleExpr (S fuel) q backup buf (Some t) trace)
           = trace ++ mkAttempt t2 true
                                (fst (parseHumbleExpr (take (take q)) t2))
                                (snd (parseHumbleExpr (take (take q)) t2)) :: rest).
Proof.
  intros Hfwd Hop.
  assert (Hstep4 : forall fuel q backup buf t trace,
             isToken t "symbol" ";" = true ->
             concat_loop parseHumbleExpr (S fuel) q backup buf (Some t) trace
             = (Finished (S (cur q)) backup buf, trace))
    by (intros; apply concat_loop_semicolon; assumption).
  assert (Hstep6 := fun fuel q backup buf t t2 trace =>
                      concat_loop_plus parseHumbleExpr fuel q backup buf t t2 trace).
  destruct (isToken token "symbol" ";") eqn:Hsemi.
  - rewrite (parseExpr_semicolon _ _ _ _ p token c0 expr Hop Hsemi).
    cbn [run_result run_buf run_trace].
    split; [eauto|]. split; [|split; [auto|split; [exact Hstep4|split; [constructor|exact Hstep6]]]].
    intros x Hx. inversion Hx; subst x. split; [reflexivity|]. split; [|reflexivity].
    split.
    + intros [m Hm]. exfalso. exact (not_its_own_concat expr m Hm).
    + simpl. lia.
  - rewrite (parseExpr_unfold _ _ _ _ p token c0 expr Hop Hsemi).
    pose proof (concat_loop_terminates parseHumbleExpr Hfwd
                  (loop_fuel (jumpTo p c0)) (jumpTo p c0) c0 [expr] []) as Hterm.
    pose proof (concat_loop_post parseHumbleExpr (loop_fuel (jumpTo p c0))
                  (jumpTo p c0) c0 [expr] (peek (jumpTo p c0)) [])
      as [new [Htr [Hpost Hsc]]].
    destruct (concat_loop parseHumbleExpr (loop_fuel (jumpTo p c0)) (jumpTo p c0) c0
                          [expr] (peek (jumpTo p c0)) []) as [lend tr].
    cbn [fst snd] in *. rewrite app_nil_l in Htr. subst tr.
    destruct lend as [|e c|c backup' buf].
    + exfalso. apply Hterm; [unfold loop_fuel; lia|reflexivity].
    + cbn [run_result run_buf run_trace].
      split; [eauto|]. split; [intros x Hx; discriminate Hx|].
      split; [intros H; discriminate H|]. auto.
    + cbn [loop_post] in Hpost. destruct Hpost as [Hbuf [_ _]].
      change ([expr] ++ successes new) with (expr :: successes new) in Hbuf.
      destruct (Nat.eqb_spec (length buf) 1) as [Hlen|Hlen];
        cbn [run_result run_buf run_trace].
      * split; [eauto|]. split; [|split; [intros H; discriminate H|auto]].
        intros x Hx. inversion Hx; subst x. split; [exact Hbuf|].
        split; [|reflexivity]. split; [|lia].
        intros [m Hm]. exfalso.
        assert (Hone : buf = [expr]).
        { rewrite Hbuf in Hlen |- *. destruct (successes new); [reflexivity|discriminate]. }
        rewrite Hone in Hm. exact (not_its_own_concat expr m Hm).
      * split; [eauto|]. split; [|split; [intros H; discriminate H|auto]].
        intros x Hx. inversion Hx; subst x. split; [exact Hbuf|].
        assert (Hge : 2 <= length buf) by (rewrite Hbuf in Hlen |- *; simpl in *; lia).
        split; [split; [intros _; exact Hge|intros _; eexists; reflexivity]|].
        intros Hle. lia.
Qed.

(** C3.  Let an attempt of the loop throw [e].  It is the last attempt and
    every one before it succeeded.  If [e] is a [SyntaxError], [parseExpr]
    does not throw: it returns the first expression, or the concatenation
    of it with what the earlier attempts accumulated, the failed attempt
    contributing nothing, and it leaves the cursor where it was saved after
    the last accumulated expression.  If [e] is anything else, [parseExpr]
    throws [e]. *)
Theorem syntax_error_of_attempt_is_suppressed
        (p : Parser) (token : Token) (c0 : nat) (expr : Expression)
        (a : Attempt) (e : Exn) :
  parseOperatorExpr p token = (c0, Return expr) ->
  In a (run_trace (run p token false)) ->
  att_result a = Throw e ->
  exists good,
    run_trace (run p token false) = good ++ [a]
    /\ forallb succeeded good = true
    /\ (is_SyntaxError e = true ->
        run_buf (run p token false) = expr :: successes good
        /\ run_result (run p token false)
           = Some (Return
                     (if is_nil (successes good) then expr
                      else concat_node startNode finishNode p c0
                                       (last_saved c0 good) (expr :: successes good)))
        /\ run_parser (run p token false) = jumpTo p (last_saved c0 good))
    /\ (is_SyntaxError e = false ->
        run_result (run p token false) = Some (Throw e)).
Proof.
  intros Hop Hin Ha.
  destruct (isToken token "symbol" ";") eqn:Hsemi.
  { rewrite (parseExpr_semicolon _ _ _ _ p token c0 expr Hop Hsemi) in Hin.
    destruct Hin. }
  rewrite (parseExpr_unfold _ _ _ _ p token c0 expr Hop Hsemi) in *.
  pose proof (concat_loop_post parseHumbleExpr (loop_fuel (jumpTo p c0))
                (jumpTo p c0) c0 [expr] (peek (jumpTo p c0)) [])
    as [new [Htr [Hpost _]]].
  destruct (concat_loop parseHumbleExpr (loop_fuel (jumpTo p c0)) (jumpTo p c0) c0
                        [expr] (peek (jumpTo p c0)) []) as [lend tr].
  cbn [fst snd] in *. rewrite app_nil_l in Htr. subst tr.
  assert (Hlast : forall good a' e',
             new = good ++ [a'] -> forallb succeeded good = true ->
             att_result a' = Throw e' -> In a new -> a' = a /\ e' = e).
  { intros good a' e' -> Hg Ha' Hin'. apply in_app_or in Hin' as [Hin'|[->|[]]].
    - exfalso. exact (failed_not_among_successes good a e Hg Hin' Ha).
    - split; [reflexivity|congruence]. }
  assert (Hdrop : forall good, forallb succeeded good = true ->
             successes (good ++ [a]) = successes good
             /\ last_saved c0 (good ++ [a]) = last_saved c0 good).
  { intros good Hg. split.
    - rewrite successes_app. unfold successes at 2. cbn [flat_map].
      rewrite Ha. rewrite !app_nil_r. reflexivity.
    - unfold last_saved. rewrite filter_app. cbn [filter].
      unfold succeeded at 2. rewrite Ha. rewrite app_nil_r. reflexivity. }
  destruct lend as [|e' c|c backup' buf].
  - exfalso. cbn [run_trace] in Hin.
    exact (failed_not_among_successes new a e Hpost Hin Ha).
  - cbn [run_trace run_result run_buf run_parser] in *.
    destruct Hpost as [Hall|[good [a' [Hnew [Hg [Ha' He']]]]]].
    + exfalso. exact (failed_not_among_successes new a e Hall Hin Ha).
    + destruct (Hlast good a' e' Hnew Hg Ha' Hin) as [-> ->].
      exists good. split; [exact Hnew|]. split; [exact Hg|]. split.
      * intros He. congruence.
      * intros _. reflexivity.
  - assert (Htrace : run_trace
                       (if (length buf =? 1)%nat
                        then mkExprRun (jumpTo p backup') (Some (Return expr)) buf new
                        else mkExprRun (jumpTo p backup')
                               (Some (Return (concat_node startNode finishNode p c0 backup' buf)))
                               buf new) = new)
      by (destruct (length buf =? 1)%nat; reflexivity).
    rewrite Htrace in *. clear Htrace.
    destruct Hpost as [Hbuf [Hbackup [Hall|[good [a' [e' [Hnew [Hg [Ha' He']]]]]]]]].
    + exfalso. exact (failed_not_among_successes new a e Hall Hin Ha).
    + destruct (Hlast good a' e' Hnew Hg Ha' Hin) as [-> ->].
      exists good. split; [exact Hnew|]. split; [exact Hg|].
      split; [|intros He; congruence]. intros _.
      destruct (Hdrop good Hg) as [Hs Hl]. rewrite Hnew, Hs in Hbuf.
      rewrite Hnew, Hl in Hbackup.
      change ([expr] ++ successes good) with (expr :: successes good) in Hbuf.
      subst buf backup'. cbn [length].
      destruct (successes good) as [|e1 rest] eqn:Hsg; cbn [length Nat.eqb is_nil];
        cbn [run_buf run_result run_parser]; auto.
Qed.

End ParseExprClaims.

(** ** [parseExpr] on concrete input *)

Lemma one_token_operand_consumes_forward : consumes_forward one_token_operand.
Proof.
  intros p t c e. unfold one_token_operand.
  destruct (String.eqb (tok_type t) "ident");
    [|destruct (String.eqb (tok_type t) "string")];
    intros H; inversion H; subst; lia.
Qed.

(** The token streams [a b }], [a + ;] and [a ( ;], the cursor standing
    after the first token. *)
Definition stream_a_b_brace : Parser :=
  mkParser "a b }" [ident_token "a"; ident_token "b"; symbol "}" 1] 1.

Definition stream_a_plus_semicolon : Parser :=
  mkParser "a + ;" [ident_token "a"; symbol "+" 1; symbol ";" 1] 1.

Definition stream_a_paren : Parser :=
  mkParser "a ( ;" [ident_token "a"; symbol "(" 1; symbol ";" 1] 1.

Definition unexpected (t : Token) : Exn :=
  SyntaxError "unexpected token" (loc_start (tok_loc t)) (loc_end (tok_loc t)).

(** The claim as first worded: no attempt is ever made on a [;] token. *)
Definition semicolon_is_never_attempted : Prop :=
  forall parseOperatorExpr parseHumbleExpr startNode finishNode p token,
    Forall (fun a => isToken (att_token a) "symbol" ";" = false)
           (run_trace (parseExpr parseOperatorExpr parseHumbleExpr
                                 startNode finishNode p token false)).

(** On [a + ;] the loop steps over the [+], reads the [;] and hands it to
    the operand parser: the one attempt of the run is on the [;] token. *)
Lemma semicolon_after_plus_is_attempted :
  map att_token
      (run_trace (parseExpr one_token_operand one_token_operand
                            node_of_token keep_location
                            stream_a_plus_semicolon (ident_token "a") false))
  = [symbol ";" 1]
  /\ ~ semicolon_is_never_attempted.
Proof.
  split; [reflexivity|].
  intros H.
  specialize (H one_token_operand one_token_operand node_of_token keep_location
                stream_a_plus_semicolon (ident_token "a")).
  vm_compute in H. inversion H as [|a l Ha Hl]. discriminate Ha.
Qed.

(** On [a b }] the attempt on [b] succeeds and the attempt on [}] fails:
    the result is the concatenation of [a] and [b]. *)
Lemma concat_node_iff_two_members_witness :
  let r := parseExpr one_token_operand one_token_operand node_of_token
                     keep_location stream_a_b_brace (ident_token "a") false in
  (exists res, run_result r = Some res)
  /\ (forall x,
         run_result r = Some (Return x) ->
         run_buf r = id_a :: successes (run_trace r)
         /\ ((exists m, x = ConcatExpression m (run_buf r)) <-> 2 <= length (run_buf r))
         /\ (length (run_buf r) <= 1 -> x = id_a))
  /\ (isToken (ident_token "a") "symbol" ";" = true ->
      run_trace r = [] /\ run_result r = Some (Return id_a))
  /\ (forall fuel q backup buf t trace,
         isToken t "symbol" ";" = true ->
         concat_loop one_token_operand (S fuel) q backup buf (Some t) trace
         = (Finished (S (cur q)) backup buf, trace))
  /\ Forall semicolon_only_after_plus (run_trace r)
  /\ (forall fuel q backup buf t t2 trace,
         isToken t "symbol" "+" = true ->
         peek (take q) = Some t2 ->
         exists rest,
           snd (concat_loop one_token_operand (S fuel) q backup buf (Some t) trace)
           = trace ++ mkAttempt t2 true
                                (fst (one_token_operand (take (take q)) t2))
                                (snd (one_token_operand (take (take q)) t2)) :: rest).
Proof.
  exact (concat_node_iff_two_members
           one_token_operand one_token_operand node_of_token keep_location
           stream_a_b_brace (ident_token "a") 1 id_a
           one_token_operand_consumes_forward eq_refl).
Defined.

(** On [a b }] the failed attempt on [}] is suppressed: [parseExpr] returns
    the concatenation of [a] and [b] and leaves the cursor after [b].  On
    [a ( ;], with an operand parser that fails on [(] with another
    exception, [parseExpr] throws that exception. *)
Lemma syntax_error_of_attempt_is_suppressed_witness :
  (exists good,
      run_trace (parseExpr one_token_operand one_token_operand node_of_token
                           keep_location stream_a_b_brace (ident_token "a") false)
      = good ++ [mkAttempt (symbol "}" 1) false 3 (Throw (unexpected (symbol "}" 1)))]
      /\ forallb succeeded good = true
      /\ (is_SyntaxError (unexpected (symbol "}" 1)) = true ->
          run_buf (parseExpr one_token_operand one_token_operand node_of_token
                             keep_location stream_a_b_brace (ident_token "a") false)
          = id_a :: successes good
          /\ run_result (parseExpr one_token_operand one_token_operand node_of_token
                                   keep_location stream_a_b_brace (ident_token "a") false)
             = Some (Return
                       (if is_nil (successes good) then id_a
                        else concat_node node_of_token keep_location stream_a_b_brace 1
                                         (last_saved 1 good) (id_a :: successes good)))
          /\ run_parser (parseExpr one_token_operand one_token_operand node_of_token
                                   keep_location stream_a_b_brace (ident_token "a") false)
             = jumpTo stream_a_b_brace (last_saved 1 good))
      /\ (is_SyntaxError (unexpected (symbol "}" 1)) = false ->
          run_result (parseExpr one_token_operand one_token_operand node_of_token
                                keep_location stream_a_b_brace (ident_token "a") false)
          = Some (Throw (unexpected (symbol "}" 1)))))
  /\ run_result (parseExpr one_token_operand faulty_operand node_of_token
                           keep_location stream_a_paren (ident_token "a") false)
     = Some (Throw (OtherError "RangeError")).
Proof.
  split.
  - apply (syntax_error_of_attempt_is_suppressed
             one_token_operand one_token_operand node_of_token keep_location
             stream_a_b_brace (ident_token "a") 1 id_a
             (mkAttempt (symbol "}" 1) false 3 (Throw (unexpected (symbol "}" 1))))
             (unexpected (symbol "}" 1))).
    + reflexivity.
    + vm_compute. right. left. reflexivity.
    + reflexivity.
  - destruct (syntax_error_of_attempt_is_suppressed
                one_token_operand faulty_operand node_of_token keep_location
                stream_a_paren (ident_token "a") 1 id_a
                (mkAttempt (symbol "(" 1) false 2 (Throw (OtherError "RangeError")))
                (OtherError "RangeError") eq_refl)
      as [good [_ [_ [_ H]]]].
    + vm_compute. left. reflexivity.
    + reflexivity.
    + apply H. reflexivity.
Defined.

(* ================================================================== *)
(** * Properties of the printers: operands and IP literals *)
(* ================================================================== *)

(** Size of a document, to tell a document from itself in parentheses. *)
Fixpoint doc_size (d : Doc) : nat :=
  match d with
  | Text _ | Line | Softline | Hardline => 1
  | Concat parts => S (list_sum (map doc_size parts))
  | Group c | Indent c => S (doc_size c)
  | IfBreak b f => S (doc_size b + doc_size f)
  end.

(** [b.concat(['(', d, ')'])]. *)
Definition parenthesized (d : Doc) : Doc := Concat [Text "("; d; Text ")"].

(** The group both operator printers build around their operands. *)
Definition operator_layout (left' : Doc) (operator : string) (right' : Doc) : Doc :=
  Group (Concat [left'; Text " "; Indent (Concat [Text operator; Line; right'])]).

Lemma parenthesized_differs (d : Doc) : parenthesized d <> d.
Proof.
  intros H. apply (f_equal doc_size) in H. simpl in H. lia.
Qed.

Lemma is_BinaryExpression_spec (e : Expression) :
  is_BinaryExpression e = true <->
  exists m l r op, e = BinaryExpression m l r op.
Proof.
  split.
  - destruct e; simpl; intros H; try discriminate H. eauto.
  - intros [m [l [r [op ->]]]]. reflexivity.
Qed.

(** The test both printers make on an operand of a logical expression. *)
Lemma and_under_or_spec (operand : Expression) (operator : string) :
  (is_LogicalExpression operand && String.eqb operator "||"
   && match operator_of operand with
      | Some op => String.eqb op "&&"
      | None => false
      end)%bool = true
  <-> (exists m l r, operand = LogicalExpression m l r "&&") /\ operator = "||".
Proof.
  split.
  - intros H. apply andb_true_iff in H as [H Hop']. apply andb_true_iff in H as [Hl Hop].
    apply String.eqb_eq in Hop.
    destruct operand; simpl in Hl; try discriminate Hl. simpl in Hop'.
    apply String.eqb_eq in Hop'. subst. eauto.
  - intros [[m [l [r ->]]] ->]. reflexivity.
Qed.

(** A document printed in parentheses under a test, or as it is. *)
Lemma parenthesized_when (test : bool) (d : Doc) (P : Prop) :
  (test = true <-> P) ->
  ((if test then parenthesized d else d) = parenthesized d
   \/ (if test then parenthesized d else d) = d)
  /\ ((if test then parenthesized d else d) = parenthesized d <-> P).
Proof.
  intros [H1 H2]. destruct test.
  - split; [left; reflexivity|]. split; auto.
  - split; [right; reflexivity|]. split.
    + intros H. exfalso. symmetry in H. exact (parenthesized_differs d H).
    + intros HP. specialize (H2 HP). discriminate H2.
Qed.

(** C5.  In both printers a binary expression prints as the group of its
    left operand, its operator and its right operand; the left operand is
    printed in parentheses exactly when it is itself a binary expression,
    whatever the two operators are, and otherwise as it prints by itself
    with no parentheses added. *)
Theorem binary_left_operand_parenthesized
        (m : Meta) (lhs rhs : Expression) (operator : string) (options : Options) :
  (exists left',
      Nodes.print (BinaryExpression m lhs rhs operator) options
      = operator_layout left' operator (Nodes.print rhs no_options)
      /\ (left' = parenthesized (Nodes.print lhs no_options)
          \/ left' = Nodes.print lhs no_options)
      /\ (left' = parenthesized (Nodes.print lhs no_options)
          <-> exists m' l r op, lhs = BinaryExpression m' l r op))
  /\ (exists left',
         PrintAST.printExpression (BinaryExpression m lhs rhs operator) options
         = PrintAST.base m
             (operator_layout left' operator
                              (PrintAST.printExpression rhs no_options))
         /\ (left' = parenthesized (PrintAST.printExpression lhs no_options)
             \/ left' = PrintAST.printExpression lhs no_options)
         /\ (left' = parenthesized (PrintAST.printExpression lhs no_options)
             <-> exists m' l r op, lhs = BinaryExpression m' l r op)).
Proof.
  split; eexists;
    (split; [cbn [Nodes.print PrintAST.printExpression]; reflexivity|]);
    apply parenthesized_when, is_BinaryExpression_spec.
Qed.

(** C6.  In both printers a logical expression prints as the group of its
    two operands around its operator; an operand, left or right, is
    printed in parentheses exactly when it is a logical expression with
    operator [&&] and the parent's operator is [||], and otherwise as it
    prints by itself. *)
Theorem logical_operand_parenthesized_iff_and_under_or
        (m : Meta) (lhs rhs : Expression) (operator : string) (options : Options) :
  (exists left' right',
      Nodes.print (LogicalExpression m lhs rhs operator) options
      = operator_layout left' operator right'
      /\ (left' = parenthesized (Nodes.print lhs no_options)
          \/ left' = Nodes.print lhs no_options)
      /\ (left' = parenthesized (Nodes.print lhs no_options)
          <-> (exists m' l r, lhs = LogicalExpression m' l r "&&") /\ operator = "||")
      /\ (right' = parenthesized (Nodes.print rhs no_options)
          \/ right' = Nodes.print rhs no_options)
      /\ (right' = parenthesized (Nodes.print rhs no_options)
          <-> (exists m' l r, rhs = LogicalExpression m' l r "&&") /\ operator = "||"))
  /\ (exists left' right',
         PrintAST.printExpression (LogicalExpression m lhs rhs operator) options
         = PrintAST.base m (operator_layout left' operator right')
         /\ (left' = parenthesized (PrintAST.printExpression lhs no_options)
             \/ left' = PrintAST.printExpression lhs no_options)
         /\ (left' = parenthesized (PrintAST.printExpression lhs no_options)
             <-> (exists m' l r, lhs = LogicalExpression m' l r "&&") /\ operator = "||")
         /\ (right' = parenthesized (PrintAST.printExpression rhs no_options)
             \/ right' = PrintAST.printExpression rhs no_options)
         /\ (right' = parenthesized (PrintAST.printExpression rhs no_options)
             <-> (exists m' l r, rhs = LogicalExpression m' l r "&&") /\ operator = "||")).
Proof.
  split; do 2 eexists;
    (split; [cbn [Nodes.print PrintAST.printExpression]; reflexivity|]);
    rewrite <- and_assoc; split; apply parenthesized_when, and_under_or_spec.
Qed.

(** C9.  Both printers write an IP literal as its address in double
    quotes followed by a suffix; the suffix is [/cidr] exactly when the
    [cidr] field is present and not zero, and is empty otherwise, so a
    literal with [cidr] zero prints as one with no [cidr]. *)
Theorem ip_cidr_suffix_iff_present_and_nonzero (i : IpNode) :
  (exists suffix,
      Nodes.Ip_print i
      = Text (dquote ++ ip_value i ++ dquote ++ suffix)
      /\ PrintAST.printIp i
         = PrintAST.base (ip_meta i) (Text (dquote ++ ip_value i ++ dquote ++ suffix))
      /\ ((exists n, cidr i = Some n /\ n <> 0%Z /\ suffix = ("/" ++ toString n)%string)
          \/ ((cidr i = None \/ cidr i = Some 0%Z) /\ suffix = EmptyString))
      /\ (suffix <> EmptyString <-> exists n, cidr i = Some n /\ n <> 0%Z))
  /\ Nodes.Ip_print (mkIp (ip_meta i) (ip_value i) (Some 0%Z))
     = Nodes.Ip_print (mkIp (ip_meta i) (ip_value i) None)
  /\ PrintAST.printIp (mkIp (ip_meta i) (ip_value i) (Some 0%Z))
     = PrintAST.printIp (mkIp (ip_meta i) (ip_value i) None).
Proof.
  split; [|split; reflexivity].
  destruct i as [m v c]. unfold Nodes.Ip_print, PrintAST.printIp.
  cbn [cidr ip_value ip_meta].
  destruct c as [n|]; cbn [number_truthy interpolate].
  - destruct (Z.eqb_spec n 0) as [->|Hn]; cbn [negb].
    + exists EmptyString. repeat split; auto.
      * intros H. exfalso. apply H. reflexivity.
      * intros [n [Hc Hn]]. congruence.
    + exists ("/" ++ toString n)%string. repeat split.
      * left. exists n. auto.
      * intros _. exists n. auto.
      * intros _ H. discriminate H.
  - exists EmptyString. repeat split; auto.
    + intros H. exfalso. apply H. reflexivity.
    + intros [n [Hc Hn]]. discriminate Hc.
Qed.

(** The literal [10.0.0.0/8], and the same address with [cidr] zero. *)
Example ip_with_cidr_8 :
  Nodes.Ip_print (mkIp no_meta "10.0.0.0" (Some 8%Z))
  = Text (dquote ++ "10.0.0.0" ++ dquote ++ "/8").
Proof. reflexivity. Qed.

Example ip_with_cidr_0 :
  Nodes.Ip_print (mkIp no_meta "10.0.0.0" (Some 0%Z))
  = Text (dquote ++ "10.0.0.0" ++ dquote).
Proof. reflexivity. Qed.

(* ================================================================== *)
(** * Properties of [next] *)
(* ================================================================== *)

(** What [acc.concat(cur)] appends. *)
Definition spread (v : Value) : list Value :=
  match v with
  | VArray items => items
  | _ => [v]
  end.

Lemma fold_Array_concat (arr acc : list Value) :
  fold_left Array_concat arr acc = acc ++ flat_map spread arr.
Proof.
  revert acc. induction arr as [|v arr IH]; intros acc; simpl.
  - rewrite app_nil_r. reflexivity.
  - rewrite IH. destruct v; simpl; rewrite <- app_assoc; reflexivity.
Qed.

(** [next()] is the concatenation, in property order, of what each value
    contributes. *)
Lemma next_contributions (this : Object) :
  next this = flat_map contribution (Object_values this).
Proof.
  unfold next, flat. rewrite fold_Array_concat. simpl.
  induction (Object_values this) as [|v vs IH]; [reflexivity|].
  destruct v; simpl; rewrite ?IH; reflexivity.
Qed.

Lemma next_app (o1 o2 : Object) : next (o1 ++ o2) = next o1 ++ next o2.
Proof.
  rewrite !next_contributions. unfold Object_values.
  rewrite map_app. apply flat_map_app.
Qed.

Lemma next_loc_property (m : Meta) : next (loc_property m) = [].
Proof.
  unfold loc_property. destruct (loc m); reflexivity.
Qed.

(** The [type] tag and the location contribute nothing. *)
Lemma next_instance (type : string) (m : Meta) (own : Object) :
  next (instance type m own) = flat_map contribution (Object_values own).
Proof.
  unfold instance. change (("type", VString type) :: own ++ loc_property m)
    with ([("type", VString type)] ++ (own ++ loc_property m)).
  rewrite !next_app, next_loc_property, app_nil_r.
  rewrite (next_contributions own). reflexivity.
Qed.

(** Puts both sides of a per-class equation in the same shape. *)
Ltac children_by_computation :=
  rewrite next_instance; cbn;
  rewrite ?app_nil_r, ?map_app, ?map_map; reflexivity.

Lemma next_of_expression (e : Expression) :
  next (Expression_properties e) = map VNode (children (NExpression e)).
Proof.
  destruct e as [| | | | | |i| | | | | | | |];
    unfold Expression_properties; try children_by_computation.
  rewrite next_instance. destruct i as [m v [n|]]; reflexivity.
Qed.

Lemma next_of_statement (s : Statement) :
  next (Statement_properties s) = map VNode (children (NStatement s)).
Proof.
  destruct s as [| | | | | | | | |m status message| | | |m test cons alt| | | |];
    unfold Statement_properties; try children_by_computation.
  - destruct message; children_by_computation.
  - destruct alt; children_by_computation.
Qed.

(** C8.  [next()] returns, in property order, the elements of every
    property value that is an array and every property value that is a
    node instance, and nothing else: a scalar property (a string, a number,
    [undefined], the location object) can be added or removed anywhere
    without changing the result.  For an instance of any node class this
    is the list of the node's structural children in field order. *)
Theorem next_enumerates_arrays_and_nodes :
  (forall this : Object,
      next this = flat_map contribution (Object_values this))
  /\ (forall (before after : Object) (key : string) (v : Value),
         scalar v = true ->
         next (before ++ (key, v) :: after) = next (before ++ after))
  /\ (forall (before after : Object) (key : string) (n : Node),
         next (before ++ (key, VNode n) :: after)
         = next before ++ VNode n :: next after)
  /\ (forall (before after : Object) (key : string) (items : list Value),
         next (before ++ (key, VArray items) :: after)
         = next before ++ items ++ next after)
  /\ (forall node : Node,
         next (properties node) = map VNode (children node)).
Proof.
  split; [exact next_contributions|].
  split; [|split; [|split]].
  - intros before after key v Hv.
    change ((key, v) :: after) with ([(key, v)] ++ after).
    rewrite !next_app. destruct v; try discriminate Hv; reflexivity.
  - intros before after key n.
    change ((key, VNode n) :: after) with ([(key, VNode n)] ++ after).
    rewrite !next_app. reflexivity.
  - intros before after key items.
    change ((key, VArray items) :: after) with ([(key, VArray items)] ++ after).
    rewrite !next_app. rewrite (next_contributions [(key, VArray items)]).
    simpl. rewrite app_nil_r. reflexivity.
  - intros [p|e|s|[m key value]|t].
    + unfold properties. children_by_computation.
    + apply next_of_expression.
    + apply next_of_statement.
    + unfold properties. destruct value; children_by_computation.
    + unfold properties. children_by_computation.
Qed.

(** The operator string between the operands of [a == b] is no child. *)
Lemma next_enumerates_arrays_and_nodes_witness :
  scalar (VString "==") = true
  /\ next ([("left", VExpression id_a)]
             ++ ("operator", VString "==") :: [("right", VExpression id_b)])
     = next ([("left", VExpression id_a)] ++ [("right", VExpression id_b)]).
Proof.
  split; [reflexivity|].
  apply (proj1 (proj2 next_enumerates_arrays_and_nodes)). reflexivity.
Defined.

(** The children of [a == b] and of an [if] with an [else] block. *)
Example next_of_binary :
  next (properties (NExpression (BinaryExpression no_meta id_a id_b "==")))
  = [VExpression id_a; VExpression id_b].
Proof. reflexivity. Qed.

Example next_of_if_else :
  next (properties
          (NStatement
             (IfStatement no_meta id_a
                          [RestartStatement no_meta]
                          (ElseBlock [ReturnStatement no_meta "pass"]))))
  = [VExpression id_a;
     VStatement (RestartStatement no_meta);
     VStatement (ReturnStatement no_meta "pass")].
Proof. reflexivity. Qed.

(* ================================================================== *)
(** * Properties of [printStatements] *)
(* ================================================================== *)

Lemma removelast_app_cons {A} (l : list A) (x : A) (r : list A) :
  removelast (l ++ x :: r) = l ++ removelast (x :: r).
Proof. apply removelast_app. discriminate. Qed.

Lemma removelast_cons_cons {A} (x y : A) (r : list A) :
  removelast (x :: y :: r) = x :: removelast (y :: r).
Proof. reflexivity. Qed.

Section StatementLists.

Variable print1 : Statement -> State -> Doc * State.

(** The array [doc] after the loop over [stmts], before [doc.pop()], and
    the counter the loop leaves. *)
Definition rendered (state : State) (stmts : list Statement) : list Doc :=
  fst (statements_loop print1 state stmts []).

Definition state_after (state : State) (stmts : list Statement) : State :=
  snd (statements_loop print1 state stmts []).

(** The counter with which [s] is printed when it follows [before], and
    what it prints to. *)
Definition state_at (state : State) (before : list Statement) (s : Statement)
  : State :=
  snd (catch_up s (state_after state before)).

Definition rendering (state : State) (before : list Statement) (s : Statement)
  : Doc :=
  fst (print1 s (state_at state before s)).

(** The hard breaks pushed before [s] when it follows [before]. *)
Definition gap (state : State) (before : list Statement) (s : Statement)
  : list Doc :=
  fst (catch_up s (state_after state before)).

Lemma statements_loop_acc (stmts : list Statement) :
  forall state doc,
    statements_loop print1 state stmts doc
    = (doc ++ rendered state stmts, state_after state stmts).
Proof.
  unfold rendered, state_after.
  induction stmts as [|s rest IH]; intros state doc.
  - simpl. rewrite app_nil_r. reflexivity.
  - cbn [statements_loop].
    destruct (catch_up s state) as [breaks state1].
    destruct (print1 s state1) as [printed state2].
    rewrite (IH _ (doc ++ breaks ++ [printed; Hardline])).
    rewrite (IH _ ([] ++ breaks ++ [printed; Hardline])).
    cbn [fst snd]. rewrite <- !app_assoc. reflexivity.
Qed.

Lemma rendered_cons (state : State) (s : Statement) (rest : list Statement) :
  rendered state (s :: rest)
  = gap state [] s ++ [rendering state [] s; Hardline]
        ++ rendered (mkState (lineNum (snd (print1 s (state_at state [] s))) + 1)) rest
  /\ state_after state (s :: rest)
     = state_after (mkState (lineNum (snd (print1 s (state_at state [] s))) + 1)) rest.
Proof.
  unfold rendered at 1, state_after at 1, gap, rendering, state_at.
  change (state_after state []) with state.
  cbn [statements_loop].
  destruct (catch_up s state) as [breaks state1]. cbn [fst snd].
  destruct (print1 s state1) as [printed state2].
  rewrite statements_loop_acc. cbn [fst snd app].
  rewrite <- app_assoc. auto.
Qed.

Lemma rendered_app (before after : list Statement) :
  forall state,
    rendered state (before ++ after)
    = rendered state before ++ rendered (state_after state before) after
    /\ state_after state (before ++ after)
       = state_after (state_after state before) after.
Proof.
  induction before as [|s rest IH]; intros state.
  - split; reflexivity.
  - change ((s :: rest) ++ after) with (s :: (rest ++ after)).
    destruct (rendered_cons state s (rest ++ after)) as [-> ->].
    destruct (rendered_cons state s rest) as [-> ->].
    destruct (IH (mkState (lineNum (snd (print1 s (state_at state [] s))) + 1)))
      as [-> ->].
    rewrite <- !app_assoc. auto.
Qed.

(** Where two neighbours of a statement list end up in the printed
    document: the first, one hard break, the gap of the second, the
    second. *)
Lemma neighbours_in_printed (state : State)
      (before : list Statement) (s1 s2 : Statement) (after : list Statement) :
  fst (printStatements print1 state (before ++ s1 :: s2 :: after))
  = Concat
      ((rendered state before ++ gap state before s1)
         ++ rendering state before s1
         :: Hardline
         :: gap state (before ++ [s1]) s2
         ++ rendering state (before ++ [s1]) s2
         :: removelast
              (Hardline :: rendered (state_after state (before ++ [s1; s2])) after)).
Proof.
  unfold printStatements. rewrite statements_loop_acc. cbn [fst app].
  f_equal.
  change (before ++ s1 :: s2 :: after) with (before ++ [s1] ++ [s2] ++ after).
  destruct (rendered_app before ([s1] ++ [s2] ++ after) state) as [-> _].
  destruct (rendered_app [s1] ([s2] ++ after) (state_after state before)) as [-> _].
  destruct (rendered_app [s2] after (state_after (state_after state before) [s1]))
    as [-> _].
  destruct (rendered_app before [s1] state) as [_ E1].
  destruct (rendered_app (before ++ [s1]) [s2] state) as [_ E2].
  rewrite <- app_assoc in E2. cbn [app] in E2.
  rewrite <- E1, <- E2 in *. clear E2.
  destruct (rendered_cons (state_after state before) s1 []) as [-> _].
  destruct (rendered_cons (state_after state (before ++ [s1])) s2 []) as [-> _].
  unfold rendered at 2 4. cbn [statements_loop fst]. rewrite !app_nil_r.
  unfold gap, rendering, state_at. change (state_after ?s []) with s.
  rewrite E1.
  rewrite <- !app_assoc. cbn [app].
  rewrite (app_assoc (rendered state before)), removelast_app_cons, removelast_cons_cons.
  rewrite app_comm_cons, removelast_app_cons, removelast_cons_cons.
  rewrite <- app_assoc. reflexivity.
Qed.

End StatementLists.

(** A statement that holds no statement list of its own: everything but a
    conditional and a subroutine. *)
Definition holds_no_statements (s : Statement) : bool :=
  match s with
  | IfStatement _ _ _ _ | SubroutineStatement _ _ _ => false
  | _ => true
  end.

Lemma plain_statement_keeps_counter (s : Statement) (state : State) :
  holds_no_statements s = true ->
  snd (Nodes.Statement_print s state) = state
  /\ snd (PrintAST.printStatement s state) = state.
Proof.
  destruct s; simpl; intros H; try discriminate H; auto.
Qed.

Lemma state_after_snoc (print1 : Statement -> State -> Doc * State)
      (state : State) (before : list Statement) (s : Statement) :
  state_after print1 state (before ++ [s])
  = mkState (lineNum (snd (print1 s (state_at print1 state before s))) + 1).
Proof.
  destruct (rendered_app print1 before [s] state) as [_ ->].
  destruct (rendered_cons print1 (state_after print1 state before) s []) as [_ ->].
  reflexivity.
Qed.

Lemma gap_without_location (print1 : Statement -> State -> Doc * State)
      (state : State) (before : list Statement) (s : Statement) :
  loc (stmt_meta s) = None -> gap print1 state before s = [].
Proof.
  intros H. unfold gap, catch_up. rewrite H. reflexivity.
Qed.

(** The statements [restart;] on a given line, and a subroutine on line 1
    whose body is one statement on line 2 (so that it ends on line 3). *)
Definition restart_on (n : Z) : Statement := RestartStatement (at_loc (at_line n)).

Definition sub_on_lines_1_to_3 : Statement :=
  SubroutineStatement (at_loc (at_line 1)) (mkIdentifier no_meta "vcl_recv")
                      [restart_on 2].

(** The claim as first worded, for the class printer and a counter that
    starts on line 1. *)
Definition two_blank_lines_between_lines_1_and_4 : Prop :=
  forall (s1 s2 : Statement) (l1 l2 : Location),
    loc (stmt_meta s1) = Some l1 -> line (loc_start l1) = 1%Z ->
    loc (stmt_meta s2) = Some l2 -> line (loc_start l2) = 4%Z ->
    fst (printStatements Nodes.Statement_print (mkState 1) [s1; s2])
    = Concat [fst (Nodes.Statement_print s1 (mkState 1));
              Hardline; Hardline; Hardline;
              fst (Nodes.Statement_print s2 (mkState 4))].

(** A subroutine starting on line 1 and ending on line 3, followed by a
    statement on line 4: both printers put a single hard break, and so no
    blank line, between the two. *)
Lemma no_blank_line_after_a_block :
  fst (printStatements Nodes.Statement_print (mkState 1)
                       [sub_on_lines_1_to_3; restart_on 4])
  = Concat [fst (Nodes.Statement_print sub_on_lines_1_to_3 (mkState 1));
            Hardline;
            Text "restart;"]
  /\ fst (printStatements PrintAST.printStatement (mkState 1)
                          [sub_on_lines_1_to_3; restart_on 4])
     = Concat [fst (PrintAST.printStatement sub_on_lines_1_to_3 (mkState 1));
               Hardline;
               Text "restart;"]
  /\ ~ two_blank_lines_between_lines_1_and_4.
Proof.
  split; [reflexivity|]. split; [reflexivity|].
  intros H.
  specialize (H sub_on_lines_1_to_3 (restart_on 4) (at_line 1) (at_line 4)
                eq_refl eq_refl eq_refl eq_refl).
  vm_compute in H. discriminate H.
Qed.

(** C7, as amended.  In the printed statement list two neighbours [s1] and
    [s2] appear as the rendering of [s1], one hard break, the gap of [s2]
    and the rendering of [s2].  The gap is empty when [s2] has no recorded
    location.  It is two hard breaks, that is two blank lines, when [s1]
    starts on line 1 and [s2] on line 4, the counter is at most 1 when
    [s1] is reached, and printing [s1] leaves the counter alone; every
    statement other than a conditional or a subroutine leaves it alone, in
    both printers. *)
Theorem blank_lines_between_neighbours
        (print1 : Statement -> State -> Doc * State) (state : State)
        (before : list Statement) (s1 s2 : Statement) (after : list Statement) :
  fst (printStatements print1 state (before ++ s1 :: s2 :: after))
  = Concat
      ((rendered print1 state before ++ gap print1 state before s1)
         ++ rendering print1 state before s1
         :: Hardline
         :: gap print1 state (before ++ [s1]) s2
         ++ rendering print1 state (before ++ [s1]) s2
         :: removelast
              (Hardline
                 :: rendered print1 (state_after print1 state (before ++ [s1; s2])) after))
  /\ (loc (stmt_meta s2) = None -> gap print1 state (before ++ [s1]) s2 = [])
  /\ (forall l1 l2 : Location,
         loc (stmt_meta s1) = Some l1 -> line (loc_start l1) = 1%Z ->
         loc (stmt_meta s2) = Some l2 -> line (loc_start l2) = 4%Z ->
         (lineNum (state_after print1 state before) <= 1)%Z ->
         snd (print1 s1 (state_at print1 state before s1))
         = state_at print1 state before s1 ->
         gap print1 state (before ++ [s1]) s2 = [Hardline; Hardline])
  /\ (forall (s : Statement) (st : State),
         holds_no_statements s = true ->
         snd (Nodes.Statement_print s st) = st
         /\ snd (PrintAST.printStatement s st) = st).
Proof.
  split; [apply neighbours_in_printed|].
  split; [apply gap_without_location|].
  split; [|exact plain_statement_keeps_counter].
  intros l1 l2 Hl1 Hline1 Hl2 Hline2 Hcounter Hkeeps.
  unfold gap. rewrite state_after_snoc, Hkeeps.
  assert (Hat : lineNum (state_at print1 state before s1) = 1%Z).
  { unfold state_at, catch_up. rewrite Hl1, Hline1.
    destruct (Z.gtb_spec 1 (lineNum (state_after print1 state before)));
      cbn [snd lineNum]; lia. }
  rewrite Hat. unfold catch_up. rewrite Hl2, Hline2. reflexivity.
Qed.

(** Two [restart;] statements on lines 1 and 4, printed from a counter at
    line 1; and the second one without a location. *)
Lemma blank_lines_between_neighbours_witness :
  fst (printStatements Nodes.Statement_print (mkState 1) [restart_on 1; restart_on 4])
  = Concat [Text "restart;"; Hardline; Hardline; Hardline; Text "restart;"]
  /\ gap Nodes.Statement_print (mkState 1) [restart_on 1] (restart_on 4)
     = [Hardline; Hardline]
  /\ gap Nodes.Statement_print (mkState 1) [restart_on 1] (RestartStatement no_meta)
     = [].
Proof.
  split; [reflexivity|]. split.
  - apply (proj1 (proj2 (proj2 (blank_lines_between_neighbours
             Nodes.Statement_print (mkState 1) [] (restart_on 1) (restart_on 4) [])))
             (at_line 1) (at_line 4)); reflexivity || (simpl; lia).
  - apply (proj1 (proj2 (blank_lines_between_neighbours
             Nodes.Statement_print (mkState 1) [] (restart_on 1)
             (RestartStatement no_meta) []))).
    reflexivity.
Defined.

Example blank_lines_printAST :
  fst (printStatements PrintAST.printStatement (mkState 1) [restart_on 1; restart_on 4])
  = Concat [Text "restart;"; Hardline; Hardline; Hardline; Text "restart;"]
  /\ fst (printStatements PrintAST.printStatement (mkState 1)
                          [restart_on 1; RestartStatement no_meta])
     = Concat [Text "restart;"; Hardline; Text "restart;"].
Proof. split; reflexivity. Qed.

(* ================================================================== *)
(** * Further properties of [parseLiteral] *)
(* ================================================================== *)

(** When [parseLiteral] throws, and when it returns [null].  It throws
    only on a numeric token without unit suffix whose text is not a number
    or is a number with a leading zero; what it throws is a [SyntaxError]
    over the span of the node being built.  It returns [null] exactly on
    the tokens that are neither boolean, string nor numeric. *)
Theorem parseLiteral_throws_iff
        (finishNode : Parser -> Location -> Location)
        (p : Parser) (token : Token) (node : Location) :
  (forall e,
      parseLiteral finishNode p token node = Throw e ->
      exists message, e = SyntaxError message (loc_start node) (loc_end node))
  /\ ((exists e, parseLiteral finishNode p token node = Throw e)
      <-> tok_type token = "numeric"
          /\ duration_re (tok_value token) = false
          /\ (Number_isNaN (tok_value token) = true
              \/ (String.length (tok_value token) <> 1
                  /\ startsWith "0" (tok_value token) = true)))
  /\ (parseLiteral finishNode p token node = Return None
      <-> tok_type token <> "boolean"
          /\ tok_type token <> "string"
          /\ tok_type token <> "numeric").
Proof.
  unfold parseLiteral, createError.
  destruct (String.eqb_spec (tok_type token) "boolean") as [Hb|Hb].
  { split; [intros e H; discriminate H|]. split; split.
    - intros [e H]; discriminate H.
    - intros [H _]. rewrite Hb in H. discriminate H.
    - intros H; discriminate H.
    - intros [H _]. contradiction. }
  destruct (String.eqb_spec (tok_type token) "string") as [Hs|Hs].
  { split; [intros e H; discriminate H|]. split; split.
    - intros [e H]; discriminate H.
    - intros [H _]. rewrite Hs in H. discriminate H.
    - intros H; discriminate H.
    - intros [_ [H _]]. contradiction. }
  destruct (String.eqb_spec (tok_type token) "numeric") as [Hn|Hn].
  2:{ split; [intros e H; discriminate H|]. split; split.
      - intros [e H]; discriminate H.
      - intros [H _]. contradiction.
      - auto.
      - reflexivity. }
  destruct (duration_re (tok_value token)).
  { split; [intros e H; discriminate H|]. split; split.
    - intros [e H]; discriminate H.
    - intros [_ [H _]]. discriminate H.
    - intros H; discriminate H.
    - intros [_ [_ H]]. contradiction. }
  destruct (Number_isNaN (tok_value token)); cbn [negb].
  { split; [intros e H; inversion H; eauto|]. split; split.
    - auto.
    - eauto.
    - intros H; discriminate H.
    - intros [_ [_ H]]. contradiction. }
  destruct (Nat.eqb_spec (String.length (tok_value token)) 1) as [Hl|Hl];
    cbn [negb andb].
  { split; [intros e H; discriminate H|]. split; split.
    - intros [e H]; discriminate H.
    - intros [_ [_ [H|[H _]]]]; [discriminate H|contradiction].
    - intros H; discriminate H.
    - intros [_ [_ H]]. contradiction. }
  destruct (startsWith "0" (tok_value token)).
  - split; [intros e H; inversion H; eauto|]. split; split.
    + auto.
    + eauto.
    + intros H; discriminate H.
    + intros [_ [_ H]]. contradiction.
  - split; [intros e H; discriminate H|]. split; split.
    + intros [e H]; discriminate H.
    + intros [_ [_ [H|[_ H]]]]; discriminate H.
    + intros H; discriminate H.
    + intros [_ [_ H]]. contradiction.
Qed.

(** A literal that [parseLiteral] returns prints, in both printers and
    under any options, as the raw text of its token, and it has no
    children. *)
Theorem literal_prints_its_token_text
        (finishNode : Parser -> Location -> Location)
        (p : Parser) (token : Token) (node : Location)
        (literal : Expression) (options : Options) :
  parseLiteral finishNode p token node = Return (Some literal) ->
  Nodes.print literal options = Text (tok_value token)
  /\ PrintAST.printExpression literal options = Text (tok_value token)
  /\ next (properties (NExpression literal)) = [].
Proof.
  unfold parseLiteral, createError.
  destruct (String.eqb (tok_type token) "boolean");
    [intros H; inversion H; subst; repeat split; reflexivity|].
  destruct (String.eqb (tok_type token) "string");
    [intros H; inversion H; subst; repeat split; reflexivity|].
  destruct (String.eqb (tok_type token) "numeric"); [|intros H; discriminate H].
  destruct (duration_re (tok_value token));
    [intros H; inversion H; subst; repeat split; reflexivity|].
  destruct (Number_isNaN (tok_value token)); cbn [negb]; [intros H; discriminate H|].
  destruct (negb (String.length (tok_value token) =? 1)%nat
            && startsWith "0" (tok_value token))%bool;
    intros H; inversion H; subst; repeat split; reflexivity.
Qed.

Lemma literal_prints_its_token_text_witness :
  Nodes.print (DurationLiteral (at_loc (at_line 1)) "10m") never_break = Text "10m"
  /\ PrintAST.printExpression (DurationLiteral (at_loc (at_line 1)) "10m") never_break
     = Text "10m"
  /\ next (properties (NExpression (DurationLiteral (at_loc (at_line 1)) "10m"))) = [].
Proof.
  apply (literal_prints_its_token_text
           keep_location (mkParser "10m" [] 0) (numeric "10m" (at_line 1)) (at_line 1)).
  reflexivity.
Defined.

(** A numeric literal that comes out of [parseLiteral] comes from a
    numeric token, carries its text, which is a number without unit
    suffix, and has no leading zero unless it is [0] itself. *)
Theorem numeric_literal_has_no_leading_zero
        (finishNode : Parser -> Location -> Location)
        (p : Parser) (token : Token) (node : Location) (m : Meta) (v : string) :
  parseLiteral finishNode p token node = Return (Some (NumericLiteral m v)) ->
  tok_type token = "numeric"
  /\ v = tok_value token
  /\ duration_re v = false
  /\ Number_isNaN v = false
  /\ (startsWith "0" v = true -> v = "0").
Proof.
  unfold parseLiteral, createError.
  destruct (String.eqb (tok_type token) "boolean"); [intros H; discriminate H|].
  destruct (String.eqb (tok_type token) "string"); [intros H; discriminate H|].
  destruct (String.eqb_spec (tok_type token) "numeric") as [Hn|Hn];
    [|intros H; discriminate H].
  destruct (duration_re (tok_value token)) eqn:Hd; [intros H; discriminate H|].
  destruct (Number_isNaN (tok_value token)) eqn:Hnan; cbn [negb];
    [intros H; discriminate H|].
  destruct (Nat.eqb_spec (String.length (tok_value token)) 1) as [Hl|Hl];
    cbn [negb andb].
  - intros H; inversion H; subst v. repeat split; auto.
    intros Hz. destruct (tok_value token) as [|c [|c' r]]; try discriminate Hl.
    simpl in Hz. apply Ascii.eqb_eq in Hz. subst c. reflexivity.
  - destruct (startsWith "0" (tok_value token)) eqn:Hz; [intros H; discriminate H|].
    intros H; inversion H; subst v. repeat split; auto.
    intros Hz'. congruence.
Qed.

Lemma numeric_literal_has_no_leading_zero_witness :
  tok_type (numeric "42" (at_line 1)) = "numeric"
  /\ "42" = tok_value (numeric "42" (at_line 1))
  /\ duration_re "42" = false
  /\ Number_isNaN "42" = false
  /\ (startsWith "0" "42" = true -> "42" = "0").
Proof.
  apply (numeric_literal_has_no_leading_zero
           keep_location (mkParser "42" [] 0) (numeric "42" (at_line 1)) (at_line 1)
           (at_loc (at_line 1)) "42").
  reflexivity.
Defined.

(** ** Tokens made of digits *)

(** A non-empty text of decimal digits. *)
Definition digits_only (v : string) : bool :=
  all_of is_digit (list_ascii_of_string v).

Lemma digit_is_no_white_space (c : ascii) : is_digit c = true -> is_ws c = false.
Proof.
  unfold is_digit, in_range, is_ws. intros H.
  apply andb_true_iff in H as [Hlo _]. apply Nat.leb_le in Hlo.
  repeat (apply orb_false_iff; split); apply Nat.eqb_neq; lia.
Qed.

Lemma digit_is_no_sign (c : ascii) :
  is_digit c = true -> (Ascii.eqb c "+" || Ascii.eqb c "-")%bool = false.
Proof.
  intros H. apply orb_false_iff. split.
  - destruct (Ascii.eqb_spec c "+") as [->|]; [discriminate H|reflexivity].
  - destruct (Ascii.eqb_spec c "-") as [->|]; [discriminate H|reflexivity].
Qed.

Lemma forallb_rev {A} (f : A -> bool) (l : list A) :
  forallb f (rev l) = forallb f l.
Proof.
  induction l as [|x l IH]; [reflexivity|].
  simpl. rewrite forallb_app, IH. simpl. rewrite andb_true_r. apply andb_comm.
Qed.

Lemma drop_white_space_of_digits (cs : list ascii) :
  forallb is_digit cs = true -> drop_while is_ws cs = cs.
Proof.
  destruct cs as [|c r]; [reflexivity|]. simpl. intros H.
  apply andb_true_iff in H as [Hc _]. rewrite (digit_is_no_white_space c Hc).
  reflexivity.
Qed.

Lemma take_digits (cs : list ascii) :
  forallb is_digit cs = true ->
  take_while is_digit cs = cs /\ drop_while is_digit cs = [].
Proof.
  induction cs as [|c r IH]; [auto|]. simpl. intros H.
  apply andb_true_iff in H as [Hc Hr]. rewrite Hc.
  destruct (IH Hr) as [-> ->]. auto.
Qed.

Lemma digits_are_a_number (v : string) :
  digits_only v = true -> Number_isNaN v = false.
Proof.
  unfold digits_only, all_of, Number_isNaN, trim. intros H.
  apply andb_true_iff in H as [Hne Hall].
  set (cs := list_ascii_of_string v) in *.
  rewrite (drop_white_space_of_digits cs Hall).
  rewrite (drop_white_space_of_digits (rev cs)) by (rewrite forallb_rev; exact Hall).
  rewrite rev_involutive.
  assert (Hdec : str_decimal cs = true).
  { unfold str_decimal. apply orb_true_iff. right.
    assert (Hs : strip_sign cs = cs).
    { destruct cs as [|c r]; [reflexivity|]. simpl in *.
      apply andb_true_iff in Hall as [Hc _].
      rewrite (digit_is_no_sign c Hc). reflexivity. }
    rewrite Hs. unfold unsigned_decimal.
    destruct (take_digits cs Hall) as [-> ->]. exact Hne. }
  rewrite Hdec, orb_true_r. reflexivity.
Qed.

Lemma list_ascii_of_append (a b : string) :
  list_ascii_of_string (a ++ b) = list_ascii_of_string a ++ list_ascii_of_string b.
Proof.
  induction a as [|c a IH]; [reflexivity|]. simpl. rewrite IH. reflexivity.
Qed.

Lemma digits_have_no_unit (v : string) :
  digits_only v = true -> duration_re v = false.
Proof.
  unfold digits_only, all_of. intros H. apply andb_true_iff in H as [_ Hall].
  destruct (duration_re v) eqn:Hd; [|reflexivity]. exfalso.
  apply duration_re_spec in Hd as [pre [u [Hin ->]]].
  rewrite list_ascii_of_append, forallb_app in Hall.
  apply andb_true_iff in Hall as [_ Hu].
  simpl in Hin.
  repeat (destruct Hin as [<-|Hin]; [discriminate Hu|]). exact Hin.
Qed.

(** A numeric token made of digits is a numeric literal carrying those
    digits, unless it has more than one digit and starts with [0]: then it
    is the syntax error [invalid number]. *)
Theorem digits_parse_unless_leading_zero
        (finishNode : Parser -> Location -> Location)
        (p : Parser) (v : string) (l node : Location) :
  digits_only v = true ->
  parseLiteral finishNode p (numeric v l) node
  = if (negb (Nat.eqb (String.length v) 1) && startsWith "0" v)%bool
    then Throw (SyntaxError "invalid number" (loc_start node) (loc_end node))
    else Return (Some (NumericLiteral (at_loc (finishNode p node)) v)).
Proof.
  intros H. unfold parseLiteral, createError. cbn [tok_type tok_value numeric].
  change (String.eqb "numeric" "boolean") with false.
  change (String.eqb "numeric" "string") with false.
  change (String.eqb "numeric" "numeric") with true. cbn iota.
  rewrite (digits_have_no_unit v H), (digits_are_a_number v H). reflexivity.
Qed.

Lemma digits_parse_unless_leading_zero_witness :
  parseLiteral keep_location (mkParser "2024" [] 0) (numeric "2024" (at_line 1))
               (at_line 1)
  = Return (Some (NumericLiteral (at_loc (at_line 1)) "2024"))
  /\ parseLiteral keep_location (mkParser "0644" [] 0) (numeric "0644" (at_line 1))
                  (at_line 1)
     = Throw (SyntaxError "invalid number"
                          (loc_start (at_line 1)) (loc_end (at_line 1))).
Proof.
  split.
  - apply (digits_parse_unless_leading_zero
             keep_location (mkParser "2024" [] 0) "2024" (at_line 1) (at_line 1)).
    reflexivity.
  - apply (digits_parse_unless_leading_zero
             keep_location (mkParser "0644" [] 0) "0644" (at_line 1) (at_line 1)).
    reflexivity.
Defined.

(* ================================================================== *)
(** * Further properties of [parseExpr] *)
(* ================================================================== *)

Lemma last_saved_from (c0 d : nat) (new : list Attempt) :
  c0 <= d ->
  Forall (fun a => succeeded a = true -> c0 < att_cursor a) new ->
  c0 <= last (map att_cursor (filter succeeded new)) d.
Proof.
  revert d. induction new as [|a new IH]; intros d Hd Hall; [exact Hd|].
  inversion Hall as [|a' new' Ha Hnew]; subst. cbn [filter].
  destruct (succeeded a) eqn:Hs.
  - cbn [map]. rewrite last_cons_default. apply IH; [|exact Hnew].
    specialize (Ha eq_refl). lia.
  - apply IH; assumption.
Qed.

Section ParseExprBounds.

Variable parseOperatorExpr : Parser -> Token -> nat * Res Expression.
Variable parseHumbleExpr : Parser -> Token -> nat * Res Expression.
Variable startNode : Parser -> Location.
Variable finishNode : Parser -> Location -> Location.

Hypothesis Hforward : consumes_forward parseHumbleExpr.

(** Every iteration steps over a token before it attempts anything: the
    loop makes at most as many attempts as there are tokens from the
    cursor on, and a successful attempt leaves the cursor further on. *)
Lemma concat_loop_progress (fuel : nat) :
  forall p backup buf trace,
  exists new,
    snd (concat_loop parseHumbleExpr fuel p backup buf (peek p) trace) = trace ++ new
    /\ length new <= length (tokens p) - cur p
    /\ Forall (fun a => succeeded a = true -> cur p < att_cursor a) new.
Proof.
  induction fuel as [|fuel IH]; intros p backup buf trace.
  - exists []. simpl. rewrite app_nil_r. repeat split; [lia|constructor].
  - cbn [concat_loop].
    destruct (peek p) as [t|] eqn:Hpeek.
    2:{ exists []. simpl. rewrite app_nil_r. repeat split; [lia|constructor]. }
    assert (Hcur : cur p < length (tokens p)).
    { apply nth_error_Some. unfold peek in Hpeek. congruence. }
    destruct (isToken t "symbol" ";").
    { exists []. simpl. rewrite app_nil_r. repeat split; [lia|constructor]. }
    assert (Hp2 : forall t2 p2,
               (if isToken t "symbol" "+" then read (take p) else Return (t, take p))
               = Return (t2, p2) ->
               tokens p2 = tokens p /\ S (cur p) <= cur p2).
    { intros t2 p2. destruct (isToken t "symbol" "+").
      - unfold read. destruct (peek (take p)); [|discriminate].
        intros E; inversion E; subst. simpl. split; [reflexivity|lia].
      - intros E; inversion E; subst. simpl. split; [reflexivity|lia]. }
    destruct (if isToken t "symbol" "+" then read (take p) else Return (t, take p))
      as [e|[t2 p2]].
    { exists []. simpl. rewrite app_nil_r. repeat split; [lia|constructor]. }
    destruct (Hp2 t2 p2 eq_refl) as [Htok Hle].
    destruct (parseHumbleExpr p2 t2) as [c3 r] eqn:Hh.
    set (a := mkAttempt t2 (isToken t "symbol" "+") c3 r).
    destruct r as [e|expr].
    + exists [a]. split; [destruct (is_SyntaxError e); reflexivity|].
      split; [simpl; lia|]. constructor; [|constructor].
      intros Hs. discriminate Hs.
    + apply Hforward in Hh.
      destruct (IH (jumpTo p2 c3) (getCursor (jumpTo p2 c3)) (buf ++ [expr])
                   (trace ++ [a])) as [new [Htr [Hlen Hall]]].
      exists (a :: new). split; [rewrite Htr, <- app_assoc; reflexivity|].
      cbn [jumpTo tokens cur] in Hlen, Hall. rewrite Htok in Hlen.
      split; [simpl; lia|]. constructor.
      * intros _. cbn [att_cursor a]. lia.
      * eapply Forall_impl; [|exact Hall]. cbn beta. intros a' Ha' Hs.
        specialize (Ha' Hs). lia.
Qed.

End ParseExprBounds.

(** [parseExpr] makes at most one attempt per token that follows its first
    expression: a failed attempt is never retried and every iteration
    steps over a token. *)
Theorem attempts_bounded_by_remaining_tokens
        (parseOperatorExpr parseHumbleExpr : Parser -> Token -> nat * Res Expression)
        (startNode : Parser -> Location)
        (finishNode : Parser -> Location -> Location)
        (p : Parser) (token : Token) (shortcut : bool) :
  consumes_forward parseHumbleExpr ->
  length (run_trace (parseExpr parseOperatorExpr parseHumbleExpr startNode finishNode
                               p token shortcut))
  <= length (tokens p) - fst (parseOperatorExpr p token).
Proof.
  intros Hfwd. unfold parseExpr.
  destruct (parseOperatorExpr p token) as [c0 [e|expr]]; cbn [fst]; [simpl; lia|].
  destruct shortcut; [simpl; lia|].
  destruct (isToken token "symbol" ";"); [simpl; lia|].
  destruct (concat_loop_progress parseHumbleExpr Hfwd (loop_fuel (jumpTo p c0))
              (jumpTo p c0) (getCursor (jumpTo p c0)) [expr] [])
    as [new [Htr [Hlen _]]].
  destruct (concat_loop parseHumbleExpr (loop_fuel (jumpTo p c0)) (jumpTo p c0)
                        (getCursor (jumpTo p c0)) [expr] (peek (jumpTo p c0)) [])
    as [lend tr].
  cbn [snd app] in Htr. subst tr. cbn [jumpTo tokens cur] in Hlen.
  destruct lend as [|e c|c backup' buf]; cbn [run_trace]; try exact Hlen.
  destruct (Nat.eqb (length buf) 1); exact Hlen.
Qed.

Lemma attempts_bounded_by_remaining_tokens_witness :
  length (run_trace (parseExpr one_token_operand one_token_operand node_of_token
                               keep_location stream_a_b_brace (ident_token "a") false))
  <= length (tokens stream_a_b_brace)
     - fst (one_token_operand stream_a_b_brace (ident_token "a")).
Proof.
  apply (attempts_bounded_by_remaining_tokens
           one_token_operand one_token_operand node_of_token keep_location
           stream_a_b_brace (ident_token "a") false).
  exact one_token_operand_consumes_forward.
Defined.

(** When [parseExpr] returns, it leaves the cursor where it was saved
    after the last accumulated expression, whatever ended the loop: the
    end of the input, a [;] it stepped over, or a failed attempt.  The
    tokens are the ones it was given, and the cursor is not before the end
    of the first expression when the operand parser only moves forward. *)
Theorem cursor_rests_after_last_accumulated
        (parseOperatorExpr parseHumbleExpr : Parser -> Token -> nat * Res Expression)
        (startNode : Parser -> Location)
        (finishNode : Parser -> Location -> Location)
        (p : Parser) (token : Token) (c0 : nat) (expr x : Expression) :
  parseOperatorExpr p token = (c0, Return expr) ->
  run_result (parseExpr parseOperatorExpr parseHumbleExpr startNode finishNode
                        p token false) = Some (Return x) ->
  run_parser (parseExpr parseOperatorExpr parseHumbleExpr startNode finishNode
                        p token false)
  = mkParser (source p) (tokens p)
             (last_saved c0 (run_trace (parseExpr parseOperatorExpr parseHumbleExpr
                                                  startNode finishNode p token false)))
  /\ (consumes_forward parseHumbleExpr ->
      c0 <= cur (run_parser (parseExpr parseOperatorExpr parseHumbleExpr
                                       startNode finishNode p token false))).
Proof.
  intros Hop.
  assert (Hbound : consumes_forward parseHumbleExpr ->
            forall new,
              snd (concat_loop parseHumbleExpr (loop_fuel (jumpTo p c0)) (jumpTo p c0)
                               c0 [expr] (peek (jumpTo p c0)) []) = new ->
              c0 <= last_saved c0 new).
  { intros Hfwd new Hnew.
    destruct (concat_loop_progress parseHumbleExpr Hfwd (loop_fuel (jumpTo p c0))
                (jumpTo p c0) c0 [expr] []) as [new' [Htr [_ Hall]]].
    rewrite Hnew in Htr. cbn [app] in Htr. subst new'.
    apply last_saved_from; [lia|exact Hall]. }
  destruct (isToken token "symbol" ";") eqn:Hsemi.
  { rewrite (parseExpr_semicolon _ _ _ _ p token c0 expr Hop Hsemi).
    cbn [run_result run_parser run_trace]. intros _. split; [reflexivity|].
    intros _. cbn. lia. }
  rewrite (parseExpr_unfold _ _ _ _ p token c0 expr Hop Hsemi).
  pose proof (concat_loop_post parseHumbleExpr (loop_fuel (jumpTo p c0))
                (jumpTo p c0) c0 [expr] (peek (jumpTo p c0)) [])
    as [new [Htr [Hpost _]]].
  destruct (concat_loop parseHumbleExpr (loop_fuel (jumpTo p c0)) (jumpTo p c0) c0
                        [expr] (peek (jumpTo p c0)) []) as [lend tr].
  cbn [fst snd] in *. rewrite app_nil_l in Htr. subst tr.
  destruct lend as [|e c|c backup' buf]; cbn [run_result];
    try (intros H; discriminate H).
  cbn [loop_post] in Hpost. destruct Hpost as [_ [-> _]].
  destruct (Nat.eqb (length buf) 1); cbn [run_result run_parser run_trace];
    intros _; (split; [reflexivity|]); intros Hfwd; cbn [jumpTo cur];
    apply (Hbound Hfwd new eq_refl).
Qed.

Lemma cursor_rests_after_last_accumulated_witness :
  run_parser (parseExpr one_token_operand one_token_operand node_of_token
                        keep_location stream_a_b_brace (ident_token "a") false)
  = mkParser "a b }" (tokens stream_a_b_brace) 2.
Proof.
  apply (proj1 (cursor_rests_after_last_accumulated
                  one_token_operand one_token_operand node_of_token keep_location
                  stream_a_b_brace (ident_token "a") 1 id_a
                  (ConcatExpression (at_loc (at_line 1)) [id_a; id_b])
                  eq_refl eq_refl)).
Defined.

(* ================================================================== *)
(** * Member chains break as a unit *)
(* ================================================================== *)

(** Soft line breaks in a document. *)
Fixpoint softlines (d : Doc) : nat :=
  match d with
  | Softline => 1
  | Concat parts => list_sum (map softlines parts)
  | Group c | Indent c => softlines c
  | IfBreak b f => softlines b + softlines f
  | Text _ | Line | Hardline => 0
  end.

(** Length of the chain of [Member] nodes along [base], and the node the
    chain starts from. *)
Fixpoint chain_depth (e : Expression) : nat :=
  match e with
  | Member _ base _ => S (chain_depth base)
  | _ => 0
  end.

Fixpoint chain_root (e : Expression) : Expression :=
  match e with
  | Member _ base _ => chain_root base
  | _ => e
  end.

(** The number of properties that get a soft break in front of them. *)
Definition broken_properties (options : Options) (e : Expression) : nat :=
  if neverBreak options then 0
  else if (broken options || Nat.leb 2 (chain_depth e))%bool then chain_depth e
       else 0.

Lemma softlines_of_texts (sep : Doc) (texts : list string) :
  softlines sep = 0 ->
  list_sum (map softlines (intersperse sep (map Text texts))) = 0.
Proof.
  intros Hsep. induction texts as [|t texts IH]; [reflexivity|].
  destruct texts as [|t' texts]; [reflexivity|].
  change (list_sum (map softlines (Text t :: sep :: intersperse sep (map Text (t' :: texts))))
          = 0).
  cbn [map list_sum softlines]. rewrite Hsep. exact IH.
Qed.

Lemma softlines_base (m : Meta) (d : Doc) :
  softlines (PrintAST.base m d) = softlines d.
Proof.
  unfold PrintAST.base.
  assert (Hlead : softlines
                    (if negb (is_nil (leadingComments m))
                     then Concat [join Hardline (map Text (leadingComments m));
                                  Hardline; d]
                     else d) = softlines d).
  { destruct (negb (is_nil (leadingComments m))); [|reflexivity].
    change (softlines (join Hardline (map Text (leadingComments m)))
            + (0 + (softlines d + 0)) = softlines d).
    unfold join.
    change (list_sum (map softlines (intersperse Hardline (map Text (leadingComments m))))
            + (0 + (softlines d + 0)) = softlines d).
    rewrite (softlines_of_texts Hardline _ eq_refl). lia. }
  destruct (negb (is_nil (trailingComments m))); [|exact Hlead].
  set (d1 := if negb (is_nil (leadingComments m))
             then Concat [join Hardline (map Text (leadingComments m)); Hardline; d]
             else d) in *.
  change (softlines d1
          + (0 + list_sum (map softlines (map Text (trailingComments m))))
          = softlines d).
  rewrite Hlead.
  assert (Ht : list_sum (map softlines (map Text (trailingComments m))) = 0).
  { induction (trailingComments m) as [|t ts IH]; [reflexivity|exact IH]. }
  rewrite Ht. lia.
Qed.

(** A chain of member accesses on an identifier breaks as a unit: under
    [neverBreak] no property gets a soft break; otherwise either every
    property of the chain gets one (when the chain has two or more
    properties, or an enclosing chain is already broken) or none does.
    Both printers agree on this. *)
Theorem member_chain_breaks_as_a_unit (e : Expression) :
  forall (root : IdentifierNode) (options : Options),
    chain_root e = Identifier root ->
    softlines (Nodes.print e options) = broken_properties options e
    /\ softlines (PrintAST.printExpression e options) = broken_properties options e.
Proof.
  induction e as [| | | | | j | | m base IH member | | | | | | |];
    intros root options Hroot; try discriminate Hroot.
  - unfold broken_properties. cbn [chain_depth Nat.leb orb].
    split.
    + cbn. destruct (neverBreak options), (broken options); reflexivity.
    + unfold PrintAST.printExpression, PrintAST.printIdentifier.
      rewrite softlines_base. cbn.
      destruct (neverBreak options), (broken options); reflexivity.
  - cbn [chain_root] in Hroot.
    set (shouldBreak := (negb (neverBreak options)
                         && (is_Member base || broken options))%bool).
    destruct (IH root (mkOptions (neverBreak options) shouldBreak) Hroot) as [IHn IHp].
    assert (Hsum : broken_properties (mkOptions (neverBreak options) shouldBreak) base
                   + (if shouldBreak then 1 else 0)
                   = broken_properties options (Member m base member)).
    { unfold broken_properties, shouldBreak. cbn [neverBreak broken chain_depth].
      destruct (neverBreak options); [reflexivity|]. cbn [negb andb].
      destruct base; cbn [is_Member chain_depth orb Nat.leb];
        destruct (broken options); cbn; try reflexivity; try discriminate Hroot; lia. }
    split.
    + cbn [Nodes.print]. fold shouldBreak.
      cbn [softlines map list_sum]. rewrite IHn, <- Hsum.
      destruct shouldBreak; cbn; lia.
    + cbn [PrintAST.printExpression]. fold shouldBreak.
      rewrite softlines_base. cbn [softlines map list_sum].
      unfold PrintAST.printIdentifier. rewrite softlines_base, IHp, <- Hsum.
      destruct shouldBreak; cbn; lia.
Qed.

(** The chain [req.http.host]: two properties, both broken unless
    [neverBreak] is set. *)
Definition req_http_host : Expression :=
  Member no_meta
         (Member no_meta (Identifier (mkIdentifier no_meta "req"))
                 (mkIdentifier no_meta "http"))
         (mkIdentifier no_meta "host").

Lemma member_chain_breaks_as_a_unit_witness :
  (softlines (Nodes.print req_http_host no_options) = 2
   /\ softlines (PrintAST.printExpression req_http_host no_options) = 2)
  /\ (softlines (Nodes.print req_http_host never_break) = 0
      /\ softlines (PrintAST.printExpression req_http_host never_break) = 0).
Proof.
  split.
  - apply (member_chain_breaks_as_a_unit
             req_http_host (mkIdentifier no_meta "req") no_options). reflexivity.
  - apply (member_chain_breaks_as_a_unit
             req_http_host (mkIdentifier no_meta "req") never_break). reflexivity.
Defined.

(* ================================================================== *)
(** * The two printers build the same documents *)
(* ================================================================== *)

(** A node without comment decorations. *)
Definition plain (m : Meta) : bool :=
  (is_nil (leadingComments m) && is_nil (trailingComments m))%bool.

(** An expression none of whose nodes carries a comment. *)
Fixpoint undecorated (e : Expression) : bool :=
  match e with
  | BooleanLiteral m _ | MultilineLiteral m _ | DurationLiteral m _
  | NumericLiteral m _ => plain m
  | StringLiteral s => plain (sl_meta s)
  | Identifier i => plain (id_meta i)
  | Ip i => plain (ip_meta i)
  | Member m base member | ValuePair m base member =>
      (plain m && undecorated base && plain (id_meta member))%bool
  | BooleanExpression m body => (plain m && undecorated body)%bool
  | UnaryExpression m _ argument => (plain m && undecorated argument)%bool
  | FunCallExpression m callee args =>
      (plain m && undecorated callee && forallb undecorated args)%bool
  | ConcatExpression m body => (plain m && forallb undecorated body)%bool
  | BinaryExpression m lhs rhs _ | LogicalExpression m lhs rhs _ =>
      (plain m && undecorated lhs && undecorated rhs)%bool
  end.

Lemma base_plain (m : Meta) (d : Doc) : plain m = true -> PrintAST.base m d = d.
Proof.
  unfold plain, PrintAST.base. intros H. apply andb_true_iff in H as [-> ->].
  reflexivity.
Qed.

Lemma size_of_member {A} (f : A -> nat) (x : A) (l : list A) :
  In x l -> f x <= list_sum (map f l).
Proof.
  induction l as [|y l IH]; [intros []|].
  intros [->|Hin]; simpl; [lia|]. specialize (IH Hin). lia.
Qed.

(** Splits the conjunctions a boolean test leaves among the hypotheses. *)
Ltac split_tests :=
  repeat match goal with
         | H : (_ && _)%bool = true |- _ =>
             apply andb_true_iff in H; destruct H
         end.

Lemma expression_printers_agree (n : nat) :
  forall e : Expression,
    size e < n ->
    undecorated e = true ->
    forall options, PrintAST.printExpression e options = Nodes.print e options.
Proof.
  induction n as [|n IH]; intros e Hsize Hplain options; [lia|].
  assert (Hlist : forall l : list Expression,
             list_sum (map size l) < n ->
             forallb undecorated l = true ->
             map (fun x => PrintAST.printExpression x no_options) l
             = map (fun x => Nodes.print x no_options) l).
  { intros l Hl Hall. apply map_ext_in. intros x Hin. apply IH.
    - pose proof (size_of_member size x l Hin). lia.
    - rewrite forallb_forall in Hall. exact (Hall x Hin). }
  destruct e; cbn [undecorated] in Hplain; cbn [size] in Hsize; split_tests;
    cbn [PrintAST.printExpression Nodes.print];
    unfold PrintAST.printStringLiteral, PrintAST.printIdentifier, PrintAST.printIp,
      Nodes.StringLiteral_print, Nodes.Identifier_print, Nodes.Ip_print;
    rewrite ?base_plain by assumption;
    try reflexivity.
  - rewrite (IH e) by (assumption || lia). reflexivity.
  - rewrite (IH e) by (assumption || lia). reflexivity.
  - rewrite (IH e) by (assumption || lia). reflexivity.
  - rewrite (IH e) by (assumption || lia). reflexivity.
  - rewrite (IH e) by (assumption || lia).
    rewrite (Hlist arguments) by (assumption || lia). reflexivity.
  - rewrite (Hlist body) by (assumption || lia). reflexivity.
  - rewrite (IH e1), (IH e2) by (assumption || lia). reflexivity.
  - rewrite (IH e1), (IH e2) by (assumption || lia). reflexivity.
Qed.

Fixpoint definition_size (b : BackendDefinition) : nat :=
  match b with
  | mkBackendDefinition _ _ (inl _) => 1
  | mkBackendDefinition _ _ (inr defs) => S (list_sum (map definition_size defs))
  end.

Fixpoint undecorated_definition (b : BackendDefinition) : bool :=
  match b with
  | mkBackendDefinition m _ (inl e) => (plain m && undecorated e)%bool
  | mkBackendDefinition m _ (inr defs) =>
      (plain m && forallb undecorated_definition defs)%bool
  end.

Fixpoint statement_size (s : Statement) : nat :=
  match s with
  | IfStatement _ _ consequent alternative =>
      S (list_sum (map statement_size consequent)
         + match alternative with
           | NoAlternative => 0
           | ElseIf s' => statement_size s'
           | ElseBlock block => list_sum (map statement_size block)
           end)
  | SubroutineStatement _ _ body => S (list_sum (map statement_size body))
  | _ => 1
  end.

(** A statement none of whose nodes carries a comment, and whose [add]
    statements assign a value that is not a chain of two or more member
    accesses (the one place where the two printers pass different
    options). *)
Fixpoint undecorated_statement (s : Statement) : bool :=
  match s with
  | ExpressionStatement m e | DeclareStatement m e _ | UnsetStatement m e
  | SyntheticStatement m e | LogStatement m e => (plain m && undecorated e)%bool
  | IncludeStatement m module => (plain m && plain (sl_meta module))%bool
  | ImportStatement m i | CallStatement m i => (plain m && plain (id_meta i))%bool
  | AddStatement m lhs rhs _ =>
      (plain m && undecorated lhs && undecorated rhs
       && Nat.leb (chain_depth rhs) 1)%bool
  | SetStatement m lhs rhs _ => (plain m && undecorated lhs && undecorated rhs)%bool
  | ReturnStatement m _ | RestartStatement m => plain m
  | ErrorStatement m _ message =>
      (plain m && match message with
                  | Some e => undecorated e
                  | None => true
                  end)%bool
  | IfStatement m test consequent alternative =>
      (plain m && undecorated test
       && forallb undecorated_statement consequent
       && match alternative with
          | NoAlternative => true
          | ElseIf s' => undecorated_statement s'
          | ElseBlock block => forallb undecorated_statement block
          end)%bool
  | SubroutineStatement m id body =>
      (plain m && plain (id_meta id) && forallb undecorated_statement body)%bool
  | AclStatement m id body =>
      (plain m && plain (id_meta id) && forallb (fun ip => plain (ip_meta ip)) body)%bool
  | BackendStatement m id body =>
      (plain m && plain (id_meta id) && forallb undecorated_definition body)%bool
  | TableStatement m id body =>
      (plain m && plain (id_meta id) && forallb (fun t => plain (td_meta t)) body)%bool
  end.

Lemma expressions_agree (e : Expression) (options : Options) :
  undecorated e = true ->
  PrintAST.printExpression e options = Nodes.print e options.
Proof.
  intros H. apply (expression_printers_agree (S (size e))); [lia|exact H].
Qed.

Lemma definition_printers_agree (n : nat) :
  forall b : BackendDefinition,
    definition_size b < n ->
    undecorated_definition b = true ->
    PrintAST.printBackendDefinition b = Nodes.BackendDefinition_print b.
Proof.
  induction n as [|n IH]; intros b Hsize Hplain; [lia|].
  destruct b as [m key [e|defs]]; cbn [undecorated_definition] in Hplain;
    cbn [definition_size] in Hsize; split_tests;
    cbn [PrintAST.printBackendDefinition Nodes.BackendDefinition_print];
    rewrite base_plain by assumption.
  - rewrite expressions_agree by assumption. reflexivity.
  - assert (Hmap : map PrintAST.printBackendDefinition defs
                   = map Nodes.BackendDefinition_print defs).
    { apply map_ext_in. intros x Hin. apply IH.
      - pose proof (size_of_member definition_size x defs Hin). lia.
      - match goal with
        | H : forallb undecorated_definition defs = true |- _ =>
            rewrite forallb_forall in H; exact (H x Hin)
        end. }
    rewrite Hmap. reflexivity.
Qed.

(** Only a member access reads the options. *)
Lemma options_reach_members_only (e : Expression) (o1 o2 : Options) :
  is_Member e = false -> Nodes.print e o1 = Nodes.print e o2.
Proof.
  destruct e; intros H; try discriminate H; reflexivity.
Qed.

Lemma short_chain_never_breaks (e : Expression) :
  chain_depth e <= 1 -> Nodes.print e never_break = Nodes.print e no_options.
Proof.
  destruct e; intros H; try reflexivity.
  cbn [chain_depth] in H.
  assert (Hb : is_Member e = false) by (destruct e; cbn in *; [..|lia| | | | | | |]; reflexivity).
  cbn [Nodes.print neverBreak broken never_break no_options negb andb orb].
  rewrite Hb. cbn [andb orb].
  rewrite (options_reach_members_only e (mkOptions true false) (mkOptions false false) Hb).
  reflexivity.
Qed.

Lemma statements_loop_ext (pr1 pr2 : Statement -> State -> Doc * State)
      (stmts : list Statement) :
  (forall s, In s stmts -> forall st, pr1 s st = pr2 s st) ->
  forall state doc,
    statements_loop pr1 state stmts doc = statements_loop pr2 state stmts doc.
Proof.
  induction stmts as [|s rest IH]; intros Hext state doc; [reflexivity|].
  cbn [statements_loop].
  destruct (catch_up s state) as [breaks state1].
  rewrite (Hext s (or_introl eq_refl)).
  destruct (pr2 s state1) as [printed state2].
  apply IH. intros s' Hin. apply Hext. right. exact Hin.
Qed.

Lemma printStatements_ext (pr1 pr2 : Statement -> State -> Doc * State)
      (stmts : list Statement) (state : State) :
  (forall s, In s stmts -> forall st, pr1 s st = pr2 s st) ->
  printStatements pr1 state stmts = printStatements pr2 state stmts.
Proof.
  intros Hext. unfold printStatements.
  rewrite (statements_loop_ext pr1 pr2 stmts Hext). reflexivity.
Qed.

Lemma statement_printers_agree (n : nat) :
  forall s : Statement,
    statement_size s < n ->
    undecorated_statement s = true ->
    forall state, PrintAST.printStatement s state = Nodes.Statement_print s state.
Proof.
  induction n as [|n IH]; intros s Hsize Hplain state; [lia|].
  assert (Hlist : forall (l : list Statement) (st : State),
             list_sum (map statement_size l) < n ->
             forallb undecorated_statement l = true ->
             printStatements PrintAST.printStatement st l
             = printStatements Nodes.Statement_print st l).
  { intros l st Hl Hall. apply printStatements_ext. intros x Hin st'. apply IH.
    - pose proof (size_of_member statement_size x l Hin). lia.
    - rewrite forallb_forall in Hall. exact (Hall x Hin). }
  destruct s as [m e|m module|m i|m i|m e vt|m lhs rhs op|m lhs rhs op|m e|m action
                 |m status message|m|m e|m e|m test cons alt|m id body|m id body
                 |m id body|m id body];
    cbn [undecorated_statement] in Hplain; cbn [statement_size] in Hsize;
    split_tests;
    cbn [PrintAST.printStatement Nodes.Statement_print];
    unfold PrintAST.printStringLiteral, PrintAST.printIdentifier,
      Nodes.StringLiteral_print, Nodes.Identifier_print;
    rewrite ?base_plain by assumption;
    rewrite ?expressions_agree by assumption;
    try reflexivity.
  - (* add *)
    rewrite (short_chain_never_breaks rhs)
      by (apply Nat.leb_le; assumption).
    reflexivity.
  - (* error *)
    destruct message as [e|]; [|reflexivity].
    rewrite expressions_agree by assumption. reflexivity.
  - (* if *)
    rewrite (Hlist cons state) by (assumption || lia).
    destruct (printStatements Nodes.Statement_print state cons) as [body state1].
    destruct alt as [|s'|block].
    + rewrite base_plain by assumption. reflexivity.
    + rewrite (IH s') by (assumption || lia).
      destruct (Nodes.Statement_print s' state1) as [altdoc state2].
      rewrite base_plain by assumption. reflexivity.
    + rewrite (Hlist block state1) by (assumption || lia).
      destruct (printStatements Nodes.Statement_print state1 block) as [altdoc state2].
      rewrite base_plain by assumption. reflexivity.
  - (* sub *)
    rewrite (Hlist body state) by (assumption || lia).
    destruct (printStatements Nodes.Statement_print state body) as [printed state1].
    rewrite base_plain by assumption. reflexivity.
  - (* acl *)
    assert (Hmap : map PrintAST.printIp body = map Nodes.Ip_print body).
    { apply map_ext_in. intros ip Hin. unfold PrintAST.printIp, Nodes.Ip_print.
      match goal with
      | H : forallb _ body = true |- _ =>
          rewrite forallb_forall in H; rewrite (base_plain _ _ (H ip Hin))
      end. reflexivity. }
    rewrite Hmap. reflexivity.
  - (* backend *)
    assert (Hmap : map PrintAST.printBackendDefinition body
                   = map Nodes.BackendDefinition_print body).
    { apply map_ext_in. intros b Hin.
      apply (definition_printers_agree (S (definition_size b))); [lia|].
      match goal with
      | H : forallb _ body = true |- _ =>
          rewrite forallb_forall in H; exact (H b Hin)
      end. }
    rewrite Hmap. reflexivity.
  - (* table *)
    assert (Hmap : map PrintAST.printTableDefinition body
                   = map Nodes.TableDefinition_print body).
    { apply map_ext_in. intros t Hin.
      unfold PrintAST.printTableDefinition, Nodes.TableDefinition_print.
      match goal with
      | H : forallb _ body = true |- _ =>
          rewrite forallb_forall in H; rewrite (base_plain _ _ (H t Hin))
      end. reflexivity. }
    rewrite Hmap. reflexivity.
Qed.



(** With a chain of two member accesses as its value the two printers
    differ: the class passes [neverBreak] to the value, the printer of
    [printAST.ts] does not. *)
Example printers_differ_on_add_of_chain :
  PrintAST.printStatement (AddStatement no_meta id_a req_http_host "=") (mkState 1)
  <> Nodes.Statement_print (AddStatement no_meta id_a req_http_host "=") (mkState 1).
Proof. intros H. vm_compute in H. discriminate H. Qed.

(* ================================================================== *)
(** * The line counter *)
(* ================================================================== *)

Lemma printStatements_state (print1 : Statement -> State -> Doc * State)
      (state : State) (stmts : list Statement) :
  snd (printStatements print1 state stmts) = state_after print1 state stmts
  /\ fst (printStatements print1 state stmts)
     = Concat (removelast (rendered print1 state stmts)).
Proof.
  unfold printStatements. rewrite statements_loop_acc. split; reflexivity.
Qed.

Lemma catch_up_never_goes_back (s : Statement) (state : State) :
  (lineNum state <= lineNum (snd (catch_up s state)))%Z.
Proof.
  unfold catch_up. destruct (loc (stmt_meta s)) as [l|]; [|cbn; lia].
  destruct (Z.gtb_spec (line (loc_start l)) (lineNum state)); cbn; lia.
Qed.

(** A list of statements advances the counter by at least its length when
    no statement of the list moves the counter back. *)
Lemma state_after_advances (print1 : Statement -> State -> Doc * State)
      (stmts : list Statement) :
  (forall s, In s stmts ->
             forall st, (lineNum st <= lineNum (snd (print1 s st)))%Z) ->
  forall state,
    (lineNum state + Z.of_nat (length stmts)
     <= lineNum (state_after print1 state stmts))%Z.
Proof.
  induction stmts as [|s rest IH]; intros Hmono state.
  - cbn. lia.
  - destruct (rendered_cons print1 state s rest) as [_ ->].
    assert (Hrest : forall s', In s' rest ->
                      forall st, (lineNum st <= lineNum (snd (print1 s' st)))%Z)
      by (intros s' Hin; apply Hmono; right; exact Hin).
    specialize (IH Hrest
                  (mkState (lineNum (snd (print1 s (state_at print1 state [] s))) + 1))).
    pose proof (Hmono s (or_introl eq_refl) (state_at print1 state [] s)) as Hs.
    pose proof (catch_up_never_goes_back s state) as Hc.
    unfold state_at in Hs at 1. change (state_after print1 state []) with state in Hs.
    cbn [lineNum] in IH. cbn [length]. rewrite Nat2Z.inj_succ. lia.
Qed.

Lemma statement_never_goes_back (n : nat) :
  forall s : Statement,
    statement_size s < n ->
    forall state,
      (lineNum state <= lineNum (snd (Nodes.Statement_print s state)))%Z
      /\ (lineNum state <= lineNum (snd (PrintAST.printStatement s state)))%Z.
Proof.
  induction n as [|n IH]; intros s Hsize state; [lia|].
  assert (Hlist : forall (l : list Statement) (st : State),
             list_sum (map statement_size l) < n ->
             (lineNum st <= lineNum (snd (printStatements Nodes.Statement_print st l)))%Z
             /\ (lineNum st
                 <= lineNum (snd (printStatements PrintAST.printStatement st l)))%Z).
  { intros l st Hl.
    rewrite (proj1 (printStatements_state Nodes.Statement_print st l)).
    rewrite (proj1 (printStatements_state PrintAST.printStatement st l)).
    split.
    - pose proof (state_after_advances Nodes.Statement_print l) as H.
      assert (Hm : forall s', In s' l -> forall st',
                   (lineNum st' <= lineNum (snd (Nodes.Statement_print s' st')))%Z).
      { intros s' Hin st'. apply IH.
        pose proof (size_of_member statement_size s' l Hin). lia. }
      specialize (H Hm st). lia.
    - pose proof (state_after_advances PrintAST.printStatement l) as H.
      assert (Hm : forall s', In s' l -> forall st',
                   (lineNum st' <= lineNum (snd (PrintAST.printStatement s' st')))%Z).
      { intros s' Hin st'. apply IH.
        pose proof (size_of_member statement_size s' l Hin). lia. }
      specialize (H Hm st). lia. }
  destruct (holds_no_statements s) eqn:Hplain.
  { destruct (plain_statement_keeps_counter s state Hplain) as [-> ->]. lia. }
  destruct s as [| | | | | | | | | | | | |m test cons alt|m id body| | |];
    try discriminate Hplain; cbn [statement_size] in Hsize;
    cbn [Nodes.Statement_print PrintAST.printStatement].
  - destruct (Hlist cons state ltac:(lia)) as [Hn Hp].
    destruct (printStatements Nodes.Statement_print state cons) as [bodyN stN].
    destruct (printStatements PrintAST.printStatement state cons) as [bodyP stP].
    cbn [snd] in Hn, Hp.
    destruct alt as [|s'|block]; cbn [snd].
    + lia.
    + destruct (IH s' ltac:(lia) stN) as [HsN _].
      destruct (IH s' ltac:(lia) stP) as [_ HsP].
      destruct (Nodes.Statement_print s' stN), (PrintAST.printStatement s' stP).
      cbn [snd] in *. lia.
    + destruct (Hlist block stN ltac:(lia)) as [HbN _].
      destruct (Hlist block stP ltac:(lia)) as [_ HbP].
      destruct (printStatements Nodes.Statement_print stN block),
        (printStatements PrintAST.printStatement stP block).
      cbn [snd] in *. lia.
  - destruct (Hlist body state ltac:(lia)) as [Hn Hp].
    destruct (printStatements Nodes.Statement_print state body),
      (printStatements PrintAST.printStatement state body).
    cbn [snd] in *. lia.
Qed.

(** Printing never moves the line counter back, and a statement list
    moves it forward by at least one line per statement, in both
    printers. *)
Theorem line_counter_only_advances (stmts : list Statement) (state : State) :
  (lineNum state + Z.of_nat (length stmts)
   <= lineNum (snd (printStatements Nodes.Statement_print state stmts)))%Z
  /\ (lineNum state + Z.of_nat (length stmts)
      <= lineNum (snd (printStatements PrintAST.printStatement state stmts)))%Z
  /\ (forall s : Statement,
         (lineNum state <= lineNum (snd (Nodes.Statement_print s state)))%Z
         /\ (lineNum state <= lineNum (snd (PrintAST.printStatement s state)))%Z).
Proof.
  assert (Hs : forall (s : Statement) (st : State),
             (lineNum st <= lineNum (snd (Nodes.Statement_print s st)))%Z
             /\ (lineNum st <= lineNum (snd (PrintAST.printStatement s st)))%Z)
    by (intros s st; apply (statement_never_goes_back (S (statement_size s))); lia).
  rewrite (proj1 (printStatements_state Nodes.Statement_print state stmts)).
  rewrite (proj1 (printStatements_state PrintAST.printStatement state stmts)).
  split; [|split].
  - apply state_after_advances. intros s _ st. apply Hs.
  - apply state_after_advances. intros s _ st. apply Hs.
  - intros s. apply Hs.
Qed.

(* ================================================================== *)
(** * Blank lines of a list of one-line statements *)
(* ================================================================== *)




Section OneLineStatements.

Variable print1 : Statement -> State -> Doc * State.




End OneLineStatements.



(* ================================================================== *)
(** * Statement lists built by a rewrite *)
(* ================================================================== *)

(** A statement without recorded location. *)
Definition unlocated (s : Statement) : bool :=
  match loc (stmt_meta s) with
  | None => true
  | Some _ => false
  end.

Lemma plain_statement_ignores_counter (s : Statement) (st st' : State) :
  holds_no_statements s = true ->
  fst (Nodes.Statement_print s st) = fst (Nodes.Statement_print s st')
  /\ fst (PrintAST.printStatement s st) = fst (PrintAST.printStatement s st').
Proof.
  destruct s; simpl; intros H; try discriminate H; auto.
Qed.

Lemma removelast_of_lines {A} (f : A -> Doc) (l : list A) :
  removelast (flat_map (fun x => [f x; Hardline]) l)
  = intersperse Hardline (map f l).
Proof.
  induction l as [|x l IH]; [reflexivity|].
  destruct l as [|y l]; [reflexivity|].
  change (flat_map (fun x => [f x; Hardline]) (x :: y :: l))
    with (f x :: Hardline :: flat_map (fun x => [f x; Hardline]) (y :: l)).
  change (flat_map (fun x => [f x; Hardline]) (y :: l))
    with (f y :: Hardline :: flat_map (fun x => [f x; Hardline]) l) in *.
  rewrite !removelast_cons_cons. rewrite <- removelast_cons_cons, IH. reflexivity.
Qed.

Lemma rendered_without_locations
      (print1 : Statement -> State -> Doc * State) (doc_of : Statement -> Doc)
      (stmts : list Statement) :
  (forall s, In s stmts -> unlocated s = true /\ forall st, print1 s st = (doc_of s, st)) ->
  forall state,
    rendered print1 state stmts = flat_map (fun s => [doc_of s; Hardline]) stmts
    /\ state_after print1 state stmts
       = mkState (lineNum state + Z.of_nat (length stmts)).
Proof.
  induction stmts as [|s rest IH]; intros H state.
  - split; [reflexivity|]. cbn. destruct state as [n]. cbn. f_equal. lia.
  - destruct (rendered_cons print1 state s rest) as [-> ->].
    destruct (H s (or_introl eq_refl)) as [Hloc Hprint].
    assert (Hat : state_at print1 state [] s = state).
    { unfold state_at, catch_up, unlocated in *.
      destruct (loc (stmt_meta s)); [discriminate Hloc|reflexivity]. }
    assert (Hgap : gap print1 state [] s = []).
    { unfold gap, catch_up, unlocated in *.
      destruct (loc (stmt_meta s)); [discriminate Hloc|reflexivity]. }
    unfold rendering. rewrite Hgap, Hat, Hprint. cbn [fst snd app].
    destruct (IH (fun s' Hin => H s' (or_intror Hin))
                 (mkState (lineNum state + 1))) as [-> ->].
    split; [reflexivity|]. cbn [lineNum length]. f_equal. lia.
Qed.

(** A list of statements without locations that hold no statement list
    prints as the statements' documents joined by single hard breaks: no
    blank line is ever inserted, whatever the counter.  The counter moves
    on by the length of the list.  Both printers. *)
Theorem unlocated_statements_are_joined_by_single_breaks
        (stmts : list Statement) (state : State) :
  forallb holds_no_statements stmts = true ->
  forallb unlocated stmts = true ->
  printStatements Nodes.Statement_print state stmts
  = (join Hardline (map (fun s => fst (Nodes.Statement_print s state)) stmts),
     mkState (lineNum state + Z.of_nat (length stmts)))
  /\ printStatements PrintAST.printStatement state stmts
     = (join Hardline (map (fun s => fst (PrintAST.printStatement s state)) stmts),
        mkState (lineNum state + Z.of_nat (length stmts))).
Proof.
  intros Hplain Hloc. rewrite forallb_forall in Hplain, Hloc.
  split.
  - destruct (rendered_without_locations
                Nodes.Statement_print (fun s => fst (Nodes.Statement_print s state)) stmts)
      with (state := state) as [Hr Hs].
    { intros s Hin. split; [exact (Hloc s Hin)|]. intros st.
      rewrite (surjective_pairing (Nodes.Statement_print s st)).
      rewrite (proj1 (plain_statement_keeps_counter s st (Hplain s Hin))).
      rewrite (proj1 (plain_statement_ignores_counter s st state (Hplain s Hin))).
      reflexivity. }
    rewrite (surjective_pairing (printStatements Nodes.Statement_print state stmts)).
    destruct (printStatements_state Nodes.Statement_print state stmts) as [-> ->].
    rewrite Hr, Hs, removelast_of_lines. reflexivity.
  - destruct (rendered_without_locations
                PrintAST.printStatement (fun s => fst (PrintAST.printStatement s state)) stmts)
      with (state := state) as [Hr Hs].
    { intros s Hin. split; [exact (Hloc s Hin)|]. intros st.
      rewrite (surjective_pairing (PrintAST.printStatement s st)).
      rewrite (proj2 (plain_statement_keeps_counter s st (Hplain s Hin))).
      rewrite (proj2 (plain_statement_ignores_counter s st state (Hplain s Hin))).
      reflexivity. }
    rewrite (surjective_pairing (printStatements PrintAST.printStatement state stmts)).
    destruct (printStatements_state PrintAST.printStatement state stmts) as [-> ->].
    rewrite Hr, Hs, removelast_of_lines. reflexivity.
Qed.

Lemma unlocated_statements_are_joined_by_single_breaks_witness :
  printStatements Nodes.Statement_print (mkState 40)
                  [RestartStatement no_meta; ReturnStatement no_meta "pass"]
  = (Concat [Text "restart;"; Hardline;
             Concat [Text "return "; Text "("; Text "pass"; Text ")"; Text ";"]],
     mkState 42).
Proof.
  apply (proj1 (unlocated_statements_are_joined_by_single_breaks
                  [RestartStatement no_meta; ReturnStatement no_meta "pass"]
                  (mkState 40) eq_refl eq_refl)).
Defined.

(* ================================================================== *)
(** * Walking a tree with [next] *)
(* ================================================================== *)






Lemma next_lists_children (node : Node) :
  next (properties node) = map VNode (children node).
Proof.
  destruct node as [p|e|s|[m key value]|t].
  - unfold properties. children_by_computation.
  - apply next_of_expression.
  - apply next_of_statement.
  - unfold properties. destruct value; children_by_computation.
  - unfold properties. children_by_computation.
Qed.






(* ================================================================== *)
(** * The branch-logging rewrite ([entry] of the logging transform, and
      [isNode] of [utils/node]) *)
(* ================================================================== *)

(** [node.type], read off the instance. *)
Definition type_of (node : Node) : string :=
  match properties node with
  | (_, VString type) :: _ => type
  | _ => EmptyString
  end.

(** [isNode(node, types)]: [types.includes(node.type)]. *)
Definition isNode (node : Node) (types : list string) : bool :=
  existsb (String.eqb (type_of node)) types.

(** [variable(obj)]: the chain [obj.http.Branch-Log], built without
    locations. *)
Definition variable (obj : string) : Expression :=
  Member no_meta
         (Member no_meta (Identifier (mkIdentifier no_meta obj))
                 (mkIdentifier no_meta "http"))
         (mkIdentifier no_meta "Branch-Log").

Definition text_literal (value : string) : Expression :=
  StringLiteral (mkStringLiteral no_meta value).

(** The statement [entry] builds for a subroutine named [id_name]. *)
Definition subroutine_logger (id_name : string) : Statement :=
  if String.eqb id_name "vcl_deliver"
  then SetStatement no_meta (variable "resp") (text_literal "std.collect(std)") "="
  else AddStatement no_meta (variable "req") (text_literal id_name) "=".

(** The statement [entry] builds for a conditional located at [l]. *)
Definition branch_logger (l : option Location) : Statement :=
  AddStatement no_meta (variable "req")
               (text_literal
                  match l with
                  | Some l' =>
                      (toString (line (loc_start l')) ++ ":"
                         ++ toString (column (loc_start l')))%string
                  | None => "synthethic"
                  end)
               "=".

(** [entry({ node })]: the node after the callback ([unshift] puts the new
    statement in front of the list). *)
Definition entry (node : Node) : Node :=
  if isNode node ["SubroutineStatement"] then
    match node with
    | NStatement (SubroutineStatement m id body) =>
        NStatement (SubroutineStatement m id (subroutine_logger (name id) :: body))
    | _ => node
    end
  else if isNode node ["IfStatement"] then
    match node with
    | NStatement (IfStatement m test consequent alternative) =>
        NStatement (IfStatement m test (branch_logger (loc m) :: consequent) alternative)
    | _ => node
    end
  else node.

(** The statement [entry] adds to a node, if any. *)
Definition logger_of (node : Node) : option Statement :=
  match node with
  | NStatement (SubroutineStatement _ id _) => Some (subroutine_logger (name id))
  | NStatement (IfStatement m _ _ _) => Some (branch_logger (loc m))
  | _ => None
  end.

Lemma logger_is_a_synthesized_line (node : Node) (logger : Statement) :
  logger_of node = Some logger ->
  unlocated logger = true /\ holds_no_statements logger = true
  /\ undecorated_statement logger = true.
Proof.
  destruct node as [p|e|s|b|t]; try discriminate.
  destruct s; try discriminate; cbn [logger_of]; intros H; inversion H; subst logger.
  - repeat split; reflexivity.
  - unfold subroutine_logger. destruct (String.eqb (name id) "vcl_deliver");
      repeat split; reflexivity.
Qed.

(** What the rewrite does to one node.  A subroutine or a conditional gets
    exactly one new statement, in front of its body or consequent: the
    children that [next()] enumerates afterwards are the former children
    with the new statement put right after the identifier or the test, the
    rest in their order.  The new statement has no location and holds no
    statement list.  Every other node is left as it is. *)
Theorem entry_prepends_one_statement (node : Node) :
  match logger_of node with
  | Some logger =>
      unlocated logger = true
      /\ holds_no_statements logger = true
      /\ exists first rest,
           next (properties node) = first :: rest
           /\ next (properties (entry node)) = first :: VStatement logger :: rest
  | None => entry node = node
  end.
Proof.
  destruct node as [p|e|s|b|t]; cbn [logger_of];
    try reflexivity.
  - destruct e; reflexivity.
  - destruct s as [| | | | | | | | | | | | |m test cons alt|m id body| | |];
      try reflexivity.
    + split; [reflexivity|]. split; [reflexivity|].
      exists (VExpression test), (map VStatement cons ++ contribution (Alternative_value alt)).
      change (entry (NStatement (IfStatement m test cons alt)))
        with (NStatement (IfStatement m test (branch_logger (loc m) :: cons) alt)).
      rewrite !next_lists_children. cbn [children map].
      rewrite !map_app, !map_map.
      destruct alt; cbn [Alternative_value contribution map];
        rewrite ?map_map; auto.
    + destruct (logger_is_a_synthesized_line
                  (NStatement (SubroutineStatement m id body))
                  (subroutine_logger (name id)) eq_refl) as [Hu [Hp _]].
      split; [exact Hu|]. split; [exact Hp|].
      exists (VIdentifier id), (map VStatement body).
      change (entry (NStatement (SubroutineStatement m id body)))
        with (NStatement (SubroutineStatement m id (subroutine_logger (name id) :: body))).
      rewrite !next_lists_children. cbn [children map ident].
      rewrite !map_map. auto.
  - destruct b as [m key value]. reflexivity.
Qed.

(** A statement without location that keeps the counter, put in front of
    a list: it is printed first with nothing in front of it, then one
    hard break, then the list as it prints from a counter one line
    further on. *)
Lemma printStatements_after_unshift
      (print1 : Statement -> State -> Doc * State)
      (s : Statement) (rest : list Statement) (state : State) :
  unlocated s = true ->
  (forall st, snd (print1 s st) = st) ->
  printStatements print1 state (s :: rest)
  = (Concat (fst (print1 s state)
               :: removelast
                    (Hardline :: rendered print1 (mkState (lineNum state + 1)) rest)),
     state_after print1 (mkState (lineNum state + 1)) rest).
Proof.
  intros Hloc Hkeep.
  rewrite (surjective_pairing (printStatements print1 state (s :: rest))).
  destruct (printStatements_state print1 state (s :: rest)) as [-> ->].
  destruct (rendered_cons print1 state s rest) as [-> ->].
  assert (Hat : state_at print1 state [] s = state).
  { unfold state_at, catch_up, unlocated in *.
    destruct (loc (stmt_meta s)); [discriminate Hloc|reflexivity]. }
  assert (Hgap : gap print1 state [] s = []).
  { unfold gap, catch_up, unlocated in *.
    destruct (loc (stmt_meta s)); [discriminate Hloc|reflexivity]. }
  unfold rendering. rewrite Hgap, Hat, Hkeep. cbn [app].
  rewrite removelast_cons_cons. reflexivity.
Qed.

(** How an instrumented body prints.  The statement the rewrite adds is
    printed first, with no hard break in front of it, and is followed by
    one hard break; the former body follows as it prints from a counter
    one line further on.  The added statement never contains a soft
    break: its member chain is printed with [neverBreak].  Both
    printers. *)
Theorem logger_prints_first
        (node : Node) (logger : Statement) (body : list Statement) (state : State) :
  logger_of node = Some logger ->
  printStatements Nodes.Statement_print state (logger :: body)
  = (Concat (fst (Nodes.Statement_print logger state)
               :: removelast
                    (Hardline
                       :: rendered Nodes.Statement_print
                                   (mkState (lineNum state + 1)) body)),
     state_after Nodes.Statement_print (mkState (lineNum state + 1)) body)
  /\ printStatements PrintAST.printStatement state (logger :: body)
     = (Concat (fst (PrintAST.printStatement logger state)
                  :: removelast
                       (Hardline
                          :: rendered PrintAST.printStatement
                                      (mkState (lineNum state + 1)) body)),
        state_after PrintAST.printStatement (mkState (lineNum state + 1)) body)
  /\ softlines (fst (Nodes.Statement_print logger state)) = 0
  /\ PrintAST.printStatement logger state = Nodes.Statement_print logger state.
Proof.
  intros Hlogger.
  destruct (logger_is_a_synthesized_line node logger Hlogger) as [Hloc [Hplain Hbare]].
  split; [|split; [|split]].
  - apply printStatements_after_unshift; [exact Hloc|].
    intros st. exact (proj1 (plain_statement_keeps_counter logger st Hplain)).
  - apply printStatements_after_unshift; [exact Hloc|].
    intros st. exact (proj2 (plain_statement_keeps_counter logger st Hplain)).
  - destruct node as [p|e|s|b|t]; try discriminate Hlogger.
    destruct s; try discriminate Hlogger; cbn [logger_of] in Hlogger;
      inversion Hlogger; subst logger.
    + reflexivity.
    + unfold subroutine_logger. destruct (String.eqb (name id) "vcl_deliver");
        reflexivity.
  - apply (statement_printers_agree (S (statement_size logger))); [lia|exact Hbare].
Qed.

(** The subroutine [vcl_recv] with one statement on the line after its
    header: the logger is printed in front of it. *)
Definition sub_vcl_recv : Node :=
  NStatement (SubroutineStatement (at_loc (at_line 1))
                                  (mkIdentifier no_meta "vcl_recv") [restart_on 2]).

Lemma logger_prints_first_witness :
  fst (printStatements Nodes.Statement_print (mkState 1)
                       (subroutine_logger "vcl_recv" :: [restart_on 2]))
  = Concat [fst (Nodes.Statement_print (subroutine_logger "vcl_recv") (mkState 1));
            Hardline; Text "restart;"].
Proof.
  rewrite (proj1 (logger_prints_first sub_vcl_recv (subroutine_logger "vcl_recv")
                                      [restart_on 2] (mkState 1) eq_refl)).
  reflexivity.
Defined.

(* ================================================================== *)
(** * Comments reach the document *)
(* ================================================================== *)

(** The strings a document holds. *)
Fixpoint texts (d : Doc) : list string :=
  match d with
  | Text s => [s]
  | Concat parts => flat_map texts parts
  | Group c | Indent c => texts c
  | IfBreak b f => texts b ++ texts f
  | Line | Softline | Hardline => []
  end.

Definition comments (m : Meta) : list string :=
  leadingComments m ++ trailingComments m.

(** The comments attached anywhere in an expression. *)
Fixpoint comments_of (e : Expression) : list string :=
  match e with
  | BooleanLiteral m _ | MultilineLiteral m _ | DurationLiteral m _
  | NumericLiteral m _ => comments m
  | StringLiteral s => comments (sl_meta s)
  | Identifier i => comments (id_meta i)
  | Ip i => comments (ip_meta i)
  | Member m base member | ValuePair m base member =>
      comments m ++ comments_of base ++ comments (id_meta member)
  | BooleanExpression m body => comments m ++ comments_of body
  | UnaryExpression m _ argument => comments m ++ comments_of argument
  | FunCallExpression m callee args =>
      comments m ++ comments_of callee ++ flat_map comments_of args
  | ConcatExpression m body => comments m ++ flat_map comments_of body
  | BinaryExpression m lhs rhs _ | LogicalExpression m lhs rhs _ =>
      comments m ++ comments_of lhs ++ comments_of rhs
  end.

Lemma texts_of_joined (sep : Doc) (docs : list Doc) (d : Doc) (s : string) :
  In d docs -> In s (texts d) -> In s (texts (join sep docs)).
Proof.
  unfold join. cbn [texts]. intros Hd Hs.
  induction docs as [|x docs IH]; [destruct Hd|].
  destruct docs as [|y docs].
  - destruct Hd as [->|[]]. cbn. rewrite app_nil_r. exact Hs.
  - change (intersperse sep (x :: y :: docs))
      with (x :: sep :: intersperse sep (y :: docs)).
    cbn [flat_map]. rewrite !in_app_iff.
    destruct Hd as [->|Hd]; [left; exact Hs|]. right. right. exact (IH Hd).
Qed.

Lemma texts_of_base (m : Meta) (d : Doc) (s : string) :
  In s (comments m) \/ In s (texts d) -> In s (texts (PrintAST.base m d)).
Proof.
  unfold comments, PrintAST.base. rewrite in_app_iff.
  set (d1 := if negb (is_nil (leadingComments m))
             then Concat [join Hardline (map Text (leadingComments m)); Hardline; d]
             else d).
  assert (H1 : In s (leadingComments m) \/ In s (texts d) -> In s (texts d1)).
  { unfold d1. intros [H|H].
    - destruct (leadingComments m) as [|c cs] eqn:Hl; [destruct H|].
      cbn [is_nil negb texts flat_map]. rewrite in_app_iff. left.
      apply (texts_of_joined Hardline _ (Text s)); [|left; reflexivity].
      apply in_map. exact H.
    - destruct (negb (is_nil (leadingComments m))); [|exact H].
      cbn [texts flat_map]. rewrite !in_app_iff. right. right. left. exact H. }
  intros [[H|H]|H].
  - destruct (negb (is_nil (trailingComments m))); [|apply H1; left; exact H].
    cbn [texts flat_map]. rewrite in_app_iff. left. apply H1. left. exact H.
  - destruct (trailingComments m) as [|c cs] eqn:Ht; [destruct H|].
    cbn [is_nil negb]. cbn [texts flat_map]. rewrite !in_app_iff. right. right.
    rewrite <- Ht in *. clear Ht.
    induction (trailingComments m) as [|c' cs' IH]; [destruct H|].
    cbn [map flat_map texts app]. destruct H as [->|H]; [left; reflexivity|].
    right. exact (IH H).
  - destruct (negb (is_nil (trailingComments m))); [|apply H1; right; exact H].
    cbn [texts flat_map]. rewrite in_app_iff. left. apply H1. right. exact H.
Qed.

(** Finds a string in a document written out as nested lists. *)
Ltac in_texts :=
  cbn [texts flat_map]; rewrite ?in_app_iff; cbn [In]; auto 20.

Lemma comments_are_printed (n : nat) :
  forall (e : Expression) (options : Options) (s : string),
    size e < n ->
    In s (comments_of e) ->
    In s (texts (PrintAST.printExpression e options)).
Proof.
  induction n as [|n IH]; intros e options s Hsize Hin; [lia|].
  assert (Hid : forall i, In s (comments (id_meta i)) ->
                          In s (texts (PrintAST.printIdentifier i)))
    by (intros i H; apply texts_of_base; left; exact H).
  assert (Hlist : forall l : list Expression,
             list_sum (map size l) < n ->
             In s (flat_map comments_of l) ->
             forall sep,
               In s (texts (join sep (map (fun x => PrintAST.printExpression x no_options) l)))).
  { intros l Hl H sep. apply in_flat_map in H as [x [Hx Hs]].
    apply (texts_of_joined sep _ (PrintAST.printExpression x no_options)).
    - apply (in_map (fun x => PrintAST.printExpression x no_options)). exact Hx.
    - apply IH; [|exact Hs]. pose proof (size_of_member size x l Hx). lia. }
  destruct e as [m v|sl|m v|m v|m v|i|ip|m base member|m base member|m body
                 |m op argument|m callee args|m body|m lhs rhs op|m lhs rhs op];
    cbn [comments_of] in Hin; cbn [size] in Hsize;
    cbn [PrintAST.printExpression];
    unfold PrintAST.printStringLiteral, PrintAST.printIp;
    try (apply texts_of_base; left; exact Hin);
    try exact (Hid i Hin);
    rewrite ?in_app_iff in Hin; apply texts_of_base;
    (destruct Hin as [Hin|Hin]; [left; exact Hin|right]).
  - destruct Hin as [Hin|Hin].
    + pose proof (IH base (mkOptions (neverBreak options)
                                     (negb (neverBreak options)
                                      && (is_Member base || broken options)))
                     s ltac:(lia) Hin).
      in_texts.
    + pose proof (Hid member Hin).
      destruct (negb (neverBreak options) && (is_Member base || broken options))%bool;
        in_texts.
  - destruct Hin as [Hin|Hin].
    + pose proof (IH base no_options s ltac:(lia) Hin). in_texts.
    + pose proof (Hid member Hin). in_texts.
  - pose proof (IH body no_options s ltac:(lia) Hin). in_texts.
  - pose proof (IH argument no_options s ltac:(lia) Hin). in_texts.
  - destruct Hin as [Hin|Hin].
    + pose proof (IH callee no_options s ltac:(lia) Hin). in_texts.
    + pose proof (Hlist args ltac:(lia) Hin (Concat [Text ","; Line])). in_texts.
  - pose proof (Hlist body ltac:(lia) Hin Line). in_texts.
  - destruct Hin as [Hin|Hin].
    + pose proof (IH lhs no_options s ltac:(lia) Hin).
      destruct (is_BinaryExpression lhs); in_texts.
    + pose proof (IH rhs no_options s ltac:(lia) Hin). in_texts.
  - destruct Hin as [Hin|Hin].
    + pose proof (IH lhs no_options s ltac:(lia) Hin).
      destruct (is_LogicalExpression lhs && String.eqb op "||"
                && match operator_of lhs with
                   | Some op' => String.eqb op' "&&"
                   | None => false
                   end)%bool; in_texts.
    + pose proof (IH rhs no_options s ltac:(lia) Hin).
      destruct (is_LogicalExpression rhs && String.eqb op "||"
                && match operator_of rhs with
                   | Some op' => String.eqb op' "&&"
                   | None => false
                   end)%bool; in_texts.
Qed.

(** The printer of [printAST.ts] drops no comment of an expression: every
    leading or trailing comment attached to any node of the expression is
    a string of the printed document, under any options. *)
Theorem no_comment_of_an_expression_is_dropped
        (e : Expression) (options : Options) (s : string) :
  In s (comments_of e) ->
  In s (texts (PrintAST.printExpression e options)).
Proof.
  apply (comments_are_printed (S (size e))). lia.
Qed.

Lemma no_comment_of_an_expression_is_dropped_witness :
  In "# the client" 
     (texts (PrintAST.printExpression
               (BinaryExpression no_meta
                  (Identifier (mkIdentifier (mkMeta None ["# the client"] []) "client"))
                  id_a "==")
               no_options)).
Proof.
  apply no_comment_of_an_expression_is_dropped. simpl. auto.
Defined.
